(** * pi-glm-image-summary: a shallow embedding of [src/index.ts]

    The extension overrides the host's [read] tool: when the active model is
    glm-4.7 (or its long-context variant) and the file is an image, the read is
    answered by a [pi] subprocess running glm-4.6v; a manual command
    [analyze-image] does the same on demand.

    Strings are JavaScript strings: finite sequences of UTF-16 code units.
    Exceptions are explicit results, event handlers are steps of a state
    machine over the events Node delivers to them. *)

From Stdlib Require Import List String Ascii NArith ZArith Bool Lia.
From Stdlib Require Import DecimalString.
Import ListNotations.

Local Open Scope N_scope.
Local Open Scope list_scope.
Local Set Warnings "-register-all".

(* ================================================================== *)
(** * JavaScript strings *)
(* ================================================================== *)

Module Js.

(** A JavaScript string, as its UTF-16 code units. *)
Definition jsstring := list N.

(** The code units of an ASCII literal. *)
Definition u (s : string) : jsstring :=
  map N_of_ascii (list_ascii_of_string s).

(** An ASCII literal in which every apostrophe stands for a double quote
    (code unit 34): JSON texts are written with it. *)
Definition dq (s : string) : jsstring :=
  map (fun c => if c =? 39 then 34 else c) (u s).

(** [a === b] on strings. *)
Fixpoint eqb (a b : jsstring) : bool :=
  match a, b with
  | [], [] => true
  | x :: a', y :: b' => (x =? y) && eqb a' b'
  | _, _ => false
  end.

(** [s.split(sep)] for a separator of one code unit: never an empty array,
    the empty string splits into one empty string. *)
Fixpoint split (sep : N) (s : jsstring) : list jsstring :=
  match s with
  | [] => [[]]
  | c :: r =>
      if c =? sep then [] :: split sep r
      else match split sep r with
           | h :: t => (c :: h) :: t
           | [] => [[c]]
           end
  end.

(** [a.pop()] as a value: the last element, [None] (undefined) on the empty
    array. *)
Fixpoint pop {A : Type} (a : list A) : option A :=
  match a with
  | [] => None
  | [x] => Some x
  | _ :: r => pop r
  end.

(** [s.toLowerCase()] on the letters A to Z.  No code unit outside ASCII
    lower-cases to one of the letters of the supported extensions, so the
    classification below does not depend on the rest of the Unicode table. *)
Definition lower (c : N) : N :=
  if (65 <=? c) && (c <=? 90) then c + 32 else c.

Definition toLowerCase (s : jsstring) : jsstring := map lower s.

(** [a.includes(x)] on an array of strings. *)
Definition includes (a : list jsstring) (x : jsstring) : bool :=
  existsb (eqb x) a.

(** White space and line terminators, as [String.prototype.trim] strips
    them. *)
Definition isTrimSpace (c : N) : bool :=
  existsb (N.eqb c)
    [9; 10; 11; 12; 13; 32; 160; 5760; 8232; 8233; 8239; 8287; 12288; 65279]
  || ((8192 <=? c) && (c <=? 8202)).

Fixpoint trimStart (s : jsstring) : jsstring :=
  match s with
  | c :: r => if isTrimSpace c then trimStart r else s
  | [] => []
  end.

Definition trimEnd (s : jsstring) : jsstring := rev (trimStart (rev s)).

(** [s.trim()]. *)
Definition trim (s : jsstring) : jsstring := trimEnd (trimStart s).

(** [a.join(sep)] on strings. *)
Fixpoint join (sep : jsstring) (a : list jsstring) : jsstring :=
  match a with
  | [] => []
  | [x] => x
  | x :: r => x ++ sep ++ join sep r
  end.

(** The decimal rendering of an integer, as a template literal prints it. *)
Definition ofZ (z : Z) : jsstring := u (NilZero.string_of_int (Z.to_int z)).

(** [x] occurs in [s] as a contiguous run. *)
Definition occursIn (x s : jsstring) : Prop :=
  exists pre post, s = pre ++ x ++ post.

(** [s] ends in [x]. *)
Definition endsWith (s x : jsstring) : Prop := exists pre, s = pre ++ x.

End Js.

Import Js.

(* ================================================================== *)
(** * The image classifier ([readOps.detectImageMimeType], lines 51-59) *)
(* ================================================================== *)

Definition supported : list jsstring :=
  [u "jpg"; u "jpeg"; u "png"; u "gif"; u "webp"].

(** [ext]: the last piece of the path split at dots, lower-cased.  [pop]
    gives undefined on no array only, so [ext] is always a string here. *)
Definition path_ext (absolutePath : jsstring) : option jsstring :=
  option_map toLowerCase (pop (split 46 absolutePath)).

(** The MIME type of a supported image, [None] for the source's [null]. *)
Definition detectImageMimeType (absolutePath : jsstring) : option jsstring :=
  match path_ext absolutePath with
  | Some ext =>
      if negb (eqb ext []) && includes supported ext
      then Some (u "image/" ++ (if eqb ext (u "jpg") then u "jpeg" else ext))
      else None
  | None => None
  end.

(** [!mimeType], the test both callers apply to the result. *)
Definition falsy (mimeType : option jsstring) : bool :=
  match mimeType with
  | None => true
  | Some s => eqb s []
  end.

(** ** The classifier in the words of the specification *)

(** The text after the last [sep] of [s], when [s] has one. *)
Fixpoint after_last (sep : N) (s : jsstring) : option jsstring :=
  match s with
  | [] => None
  | c :: r =>
      match after_last sep r with
      | Some e => Some e
      | None => if c =? sep then Some r else None
      end
  end.

(** What follows the last slash of a path. *)
Definition basename (path : jsstring) : jsstring :=
  match after_last 47 path with
  | Some b => b
  | None => path
  end.

Fixpoint drop_slashes (s : jsstring) : jsstring :=
  match s with
  | [] => []
  | c :: r => if c =? 47 then drop_slashes r else s
  end.

(** The path without the slashes that end it. *)
Definition strip_slashes (path : jsstring) : jsstring :=
  rev (drop_slashes (rev path)).

Definition ends_in_slash (s : jsstring) : bool :=
  match rev s with
  | [] => false
  | c :: _ => c =? 47
  end.

(** The file name of a path, as [path.basename] has it: its last component,
    the slashes that end the path left aside. *)
Definition file_name (path : jsstring) : jsstring :=
  basename (strip_slashes path).

(** What follows the last dot of the file name; a dot that starts the name
    counts. *)
Definition dot_suffix (path : jsstring) : option jsstring :=
  after_last 46 (file_name path).

(** The file extension, leading dot stripped, as [path.extname] has it:
    what follows the last dot of the file name, when that dot is not the
    first character of the name.  A dot-file such as [.png] has no
    extension, and neither has the name made of two dots. *)
Definition file_extension (path : jsstring) : option jsstring :=
  match file_name path with
  | [] => None
  | [46; 46] => None
  | _ :: rest => after_last 46 rest
  end.

(** A file name that starts with a dot. *)
Definition dot_file (path : jsstring) : bool :=
  match file_name path with
  | 46 :: _ => true
  | _ => false
  end.

Inductive ClassificationResult :=
| Image (mimeType : jsstring)
| NotImage.

Definition classify (path : jsstring) : ClassificationResult :=
  match detectImageMimeType path with
  | Some m => Image m
  | None => NotImage
  end.

(** The MIME type the specification assigns to a lower-case extension. *)
Definition mime_of (ext : jsstring) : jsstring :=
  u "image/" ++ (if eqb ext (u "jpg") then u "jpeg" else ext).

(** The classification the specification describes: by the file extension,
    compared without regard to case, against the closed set. *)
Definition classify_by_extension (path : jsstring) : ClassificationResult :=
  match file_extension path with
  | Some e =>
      if includes supported (toLowerCase e)
      then Image (mime_of (toLowerCase e))
      else NotImage
  | None => NotImage
  end.

(** The same classification by what follows the last dot of the file
    name, a dot that starts the name included. *)
Definition classify_by_suffix (path : jsstring) : ClassificationResult :=
  match dot_suffix path with
  | Some e =>
      if includes supported (toLowerCase e)
      then Image (mime_of (toLowerCase e))
      else NotImage
  | None => NotImage
  end.

(* ================================================================== *)
(** * JSON texts and [JSON.parse] *)
(* ================================================================== *)

Module Json.

(** A parsed JSON value.  A number keeps its lexeme: what the source does
    never depends on its numeric value.  An object keeps its members in the
    order of the text; a key given twice holds its last value. *)
Inductive json :=
| JNull
| JBool (b : bool)
| JNum (lexeme : jsstring)
| JStr (s : jsstring)
| JArr (elements : list json)
| JObj (members : list (jsstring * json)).

(** What a parser returns: a value and the unread text, a [SyntaxError], or
    no answer within its fuel. *)
Inductive parsed (A : Type) :=
| Parsed (a : A) (rest : jsstring)
| SyntaxError
| OutOfFuel.

Arguments Parsed {A} a rest.
Arguments SyntaxError {A}.
Arguments OutOfFuel {A}.

Definition pbind {A B : Type} (p : parsed A) (k : A -> jsstring -> parsed B)
  : parsed B :=
  match p with
  | Parsed a rest => k a rest
  | SyntaxError => SyntaxError
  | OutOfFuel => OutOfFuel
  end.

Definition ofOption {A : Type} (o : option (A * jsstring)) : parsed A :=
  match o with
  | Some (a, rest) => Parsed a rest
  | None => SyntaxError
  end.

(** JSON white space: tab, line feed, carriage return, space. *)
Definition isJsonSpace (c : N) : bool :=
  (c =? 9) || (c =? 10) || (c =? 13) || (c =? 32).

Fixpoint skip_ws (s : jsstring) : jsstring :=
  match s with
  | c :: r => if isJsonSpace c then skip_ws r else s
  | [] => []
  end.

Definition isDigit (c : N) : bool := (48 <=? c) && (c <=? 57).

Definition hexval (c : N) : option N :=
  if isDigit c then Some (c - 48)
  else if (97 <=? c) && (c <=? 102) then Some (c - 87)
  else if (65 <=? c) && (c <=? 70) then Some (c - 55)
  else None.

(** The character a one-letter escape stands for. *)
Definition unescape (e : N) : option N :=
  if e =? 34 then Some 34            (* quote *)
  else if e =? 92 then Some 92       (* backslash *)
  else if e =? 47 then Some 47       (* slash *)
  else if e =? 98 then Some 8        (* b *)
  else if e =? 102 then Some 12      (* f *)
  else if e =? 110 then Some 10      (* n *)
  else if e =? 114 then Some 13      (* r *)
  else if e =? 116 then Some 9       (* t *)
  else None.

(** The characters of a string literal after its opening quote, up to the
    closing one, escapes decoded. *)
Fixpoint lex_string (s : jsstring) : option (jsstring * jsstring) :=
  match s with
  | [] => None
  | c :: r =>
      if c =? 34 then Some ([], r)
      else if c =? 92 then
        match r with
        | [] => None
        | e :: r1 =>
            if e =? 117 then
              match r1 with
              | h1 :: h2 :: h3 :: h4 :: r2 =>
                  match hexval h1, hexval h2, hexval h3, hexval h4 with
                  | Some a, Some b, Some c', Some d =>
                      match lex_string r2 with
                      | Some (str, rest) =>
                          Some ((((a * 16 + b) * 16 + c') * 16 + d) :: str, rest)
                      | None => None
                      end
                  | _, _, _, _ => None
                  end
              | _ => None
              end
            else
              match unescape e with
              | Some x =>
                  match lex_string r1 with
                  | Some (str, rest) => Some (x :: str, rest)
                  | None => None
                  end
              | None => None
              end
        end
      else if c <? 32 then None
      else
        match lex_string r with
        | Some (str, rest) => Some (c :: str, rest)
        | None => None
        end
  end.

Fixpoint span_digits (s : jsstring) : jsstring * jsstring :=
  match s with
  | c :: r =>
      if isDigit c then let (d, rest) := span_digits r in (c :: d, rest)
      else ([], s)
  | [] => ([], [])
  end.

(** At least one digit. *)
Definition lex_digits (s : jsstring) : option (jsstring * jsstring) :=
  match span_digits s with
  | ([], _) => None
  | (d, rest) => Some (d, rest)
  end.

(** The integer part: a lone zero, or digits that start with none. *)
Definition lex_int (s : jsstring) : option (jsstring * jsstring) :=
  match s with
  | c :: r =>
      if c =? 48 then Some ([48], r)
      else if isDigit c then let (d, rest) := span_digits r in Some (c :: d, rest)
      else None
  | [] => None
  end.

Definition lex_frac (s : jsstring) : option (jsstring * jsstring) :=
  match s with
  | c :: r =>
      if c =? 46 then
        match lex_digits r with
        | Some (d, rest) => Some (46 :: d, rest)
        | None => None
        end
      else Some ([], s)
  | [] => Some ([], [])
  end.

Definition lex_sign (s : jsstring) : jsstring * jsstring :=
  match s with
  | c :: r => if (c =? 43) || (c =? 45) then ([c], r) else ([], s)
  | [] => ([], [])
  end.

Definition lex_exp (s : jsstring) : option (jsstring * jsstring) :=
  match s with
  | c :: r =>
      if (c =? 101) || (c =? 69) then
        let (sg, r1) := lex_sign r in
        match lex_digits r1 with
        | Some (d, rest) => Some (c :: sg ++ d, rest)
        | None => None
        end
      else Some ([], s)
  | [] => Some ([], [])
  end.

Definition lex_minus (s : jsstring) : jsstring * jsstring :=
  match s with
  | c :: r => if c =? 45 then ([45], r) else ([], s)
  | [] => ([], [])
  end.

(** A number: optional minus, integer part, optional fraction, optional
    exponent. *)
Definition lex_number (s : jsstring) : option (jsstring * jsstring) :=
  let (m, r0) := lex_minus s in
  match lex_int r0 with
  | Some (i, r1) =>
      match lex_frac r1 with
      | Some (f, r2) =>
          match lex_exp r2 with
          | Some (e, r3) => Some (m ++ i ++ f ++ e, r3)
          | None => None
          end
      | None => None
      end
  | None => None
  end.

(** [s] without its prefix [p], when it starts with it. *)
Fixpoint strip_prefix (p s : jsstring) : option jsstring :=
  match p, s with
  | [], _ => Some s
  | x :: p', y :: s' => if x =? y then strip_prefix p' s' else None
  | _ :: _, [] => None
  end.

Definition lex_literal (word : jsstring) (v : json) (s : jsstring) : parsed json :=
  match strip_prefix word s with
  | Some rest => Parsed v rest
  | None => SyntaxError
  end.

(** Recursive descent over the JSON grammar.  [parse_elements] reads what
    follows an opening bracket or a comma of a non-empty array up to the
    closing bracket, [parse_members] the same inside an object. *)
Fixpoint parse_value (fuel : nat) (s : jsstring) : parsed json :=
  match fuel with
  | O => OutOfFuel
  | S f =>
      match skip_ws s with
      | [] => SyntaxError
      | c :: r =>
          if c =? 34 then
            pbind (ofOption (lex_string r)) (fun str rest => Parsed (JStr str) rest)
          else if c =? 91 then
            match skip_ws r with
            | [] => SyntaxError
            | c' :: r' =>
                if c' =? 93 then Parsed (JArr []) r'
                else pbind (parse_elements f r) (fun l rest => Parsed (JArr l) rest)
            end
          else if c =? 123 then
            match skip_ws r with
            | [] => SyntaxError
            | c' :: r' =>
                if c' =? 125 then Parsed (JObj []) r'
                else pbind (parse_members f r) (fun m rest => Parsed (JObj m) rest)
            end
          else if c =? 116 then lex_literal (u "rue") (JBool true) r
          else if c =? 102 then lex_literal (u "alse") (JBool false) r
          else if c =? 110 then lex_literal (u "ull") JNull r
          else
            pbind (ofOption (lex_number (c :: r)))
                  (fun lexeme rest => Parsed (JNum lexeme) rest)
      end
  end
with parse_elements (fuel : nat) (s : jsstring) : parsed (list json) :=
  match fuel with
  | O => OutOfFuel
  | S f =>
      pbind (parse_value f s) (fun v rest =>
        match skip_ws rest with
        | [] => SyntaxError
        | c :: r =>
            if c =? 44 then
              pbind (parse_elements f r) (fun l rest' => Parsed (v :: l) rest')
            else if c =? 93 then Parsed [v] r
            else SyntaxError
        end)
  end
with parse_members (fuel : nat) (s : jsstring) : parsed (list (jsstring * json)) :=
  match fuel with
  | O => OutOfFuel
  | S f =>
      match skip_ws s with
      | [] => SyntaxError
      | q :: r0 =>
          if q =? 34 then
            pbind (ofOption (lex_string r0)) (fun key rest0 =>
              match skip_ws rest0 with
              | [] => SyntaxError
              | colon :: r1 =>
                  if colon =? 58 then
                    pbind (parse_value f r1) (fun v rest =>
                      match skip_ws rest with
                      | [] => SyntaxError
                      | c :: r =>
                          if c =? 44 then
                            pbind (parse_members f r)
                                  (fun m rest' => Parsed ((key, v) :: m) rest')
                          else if c =? 125 then Parsed [(key, v)] r
                          else SyntaxError
                      end)
                  else SyntaxError
              end)
          else SyntaxError
      end
  end.

(** Fuel that [parse_value] never exhausts on [text] (see
    [parse_value_fuel]). *)
Definition fuel_for (text : jsstring) : nat := (2 * List.length text + 1)%nat.

(** [JSON.parse(text)]: one value, white space around it, nothing else;
    [None] for a thrown [SyntaxError].  The parser of the engine keeps its
    own stack and takes a text of any nesting; the source catches what
    [JSON.parse] throws and what the later steps throw alike. *)
Definition JSON_parse (text : jsstring) : option json :=
  match parse_value (fuel_for text) text with
  | Parsed v rest =>
      match skip_ws rest with
      | [] => Some v
      | _ :: _ => None
      end
  | SyntaxError => None
  | OutOfFuel => None
  end.

End Json.

Import Json.

(* ================================================================== *)
(** * The operations of JavaScript the source applies to parsed values *)
(* ================================================================== *)

(** A JavaScript value the source meets: a parsed value, or [None] for
    [undefined]. *)
Definition value := option json.

(** How an evaluation ends: with a value, or by throwing. *)
Inductive completion (A : Type) :=
| Normal (a : A)
| Throw.

Arguments Normal {A} a.
Arguments Throw {A}.

Definition cbind {A B : Type} (c : completion A) (k : A -> completion B)
  : completion B :=
  match c with
  | Normal a => k a
  | Throw => Throw
  end.

Notation "x <- c1 ;; c2" := (cbind c1 (fun x => c2))
  (at level 61, c1 at next level, right associativity).

(** The own property [key] of an object: the last member with that key. *)
Fixpoint lookup (key : jsstring) (members : list (jsstring * json)) : value :=
  match members with
  | [] => None
  | (k, v) :: r =>
      match lookup key r with
      | Some v' => Some v'
      | None => if eqb key k then Some v else None
      end
  end.

(** [v.key] for the property names the source reads ([messages], [role],
    [content], [type], [text]): none of them is a property of a built-in
    prototype, so it is an own property of an object or it is undefined;
    reading a property of [null] or [undefined] throws a [TypeError]. *)
Definition Get (v : value) (key : jsstring) : completion value :=
  match v with
  | None => Throw
  | Some JNull => Throw
  | Some (JObj members) => Normal (lookup key members)
  | Some _ => Normal None
  end.

(** [v === s] for a string [s]. *)
Definition strictEq (v : value) (s : jsstring) : bool :=
  match v with
  | Some (JStr x) => eqb x s
  | _ => false
  end.

(** [Array.isArray(v)]. *)
Definition isArray (v : value) : bool :=
  match v with
  | Some (JArr _) => true
  | _ => false
  end.

(** The elements of an array value. *)
Definition elementsOf (v : value) : list json :=
  match v with
  | Some (JArr a) => a
  | _ => []
  end.

(** [a.findLast(p)]: from the last element down, the first that satisfies
    [p]; elements before it are never visited. *)
Fixpoint findLast_down (p : json -> completion bool) (reversed : list json)
  : completion value :=
  match reversed with
  | [] => Normal None
  | x :: r => b <- p x ;; if b then Normal (Some x) else findLast_down p r
  end.

Definition findLast (p : json -> completion bool) (a : list json)
  : completion value :=
  findLast_down p (rev a).

(** [a.filter(p)]: every element is visited, in order. *)
Fixpoint filter_c (p : json -> completion bool) (a : list json)
  : completion (list json) :=
  match a with
  | [] => Normal []
  | x :: r =>
      b <- p x ;; l <- filter_c p r ;; Normal (if b then x :: l else l)
  end.

(** [a.map(f)]. *)
Fixpoint map_c {A B : Type} (f : A -> completion B) (a : list A)
  : completion (list B) :=
  match a with
  | [] => Normal []
  | x :: r => y <- f x ;; l <- map_c f r ;; Normal (y :: l)
  end.

Section Numbers.

(** [Number::toString] of the double a JSON number lexeme denotes, and
    whether that double is a zero: built-ins of the language, on floating
    point, taken as parameters.  [join_depth] is the number of nested calls
    of [join] the engine's stack has room for where the source calls [join];
    the source behaves as stated for every such number. *)
Variable Number_toString : jsstring -> jsstring.
Variable join_depth : nat.
Variable Number_isZero : jsstring -> bool.

(** [ToBoolean(v)]. *)
Definition ToBoolean (v : value) : bool :=
  match v with
  | None => false
  | Some JNull => false
  | Some (JBool b) => b
  | Some (JNum lexeme) => negb (Number_isZero lexeme)
  | Some (JStr s) => negb (eqb s [])
  | Some (JArr _) => true
  | Some (JObj _) => true
  end.

(** [ToString(v)] of a parsed value.  An array prints its elements joined
    by commas, [null] elements as nothing; each level of nesting is a call of
    [join] inside a call of [join], and the engine throws a [RangeError] when
    its stack is exhausted: [depth] is the number of levels that are left.
    An object prints through [Object.prototype.toString], unless it has an
    own member [toString]: that member is no function, [valueOf] returns no
    primitive, and the conversion throws a [TypeError]. *)
Fixpoint ToString (depth : nat) (j : json) {struct j} : completion jsstring :=
  match j with
  | JNull => Normal (u "null")
  | JBool true => Normal (u "true")
  | JBool false => Normal (u "false")
  | JNum lexeme => Normal (Number_toString lexeme)
  | JStr s => Normal s
  | JArr a =>
      match depth with
      | O => Throw
      | S d =>
          l <- (fix each (a : list json) : completion (list jsstring) :=
                  match a with
                  | [] => Normal []
                  | x :: r =>
                      s <- match x with JNull => Normal [] | _ => ToString d x end ;;
                      l <- each r ;;
                      Normal (s :: l)
                  end) a ;;
          Normal (join [44] l)
      end
  | JObj members =>
      match lookup (u "toString") members with
      | Some _ => Throw
      | None => Normal (u "[object Object]")
      end
  end.

(** What [Array.prototype.join] prints for one element: nothing for
    [undefined] and [null]. *)
Definition elementString (v : value) : completion jsstring :=
  match v with
  | None => Normal []
  | Some JNull => Normal []
  | Some j => ToString join_depth j
  end.

(** [a.join(sep)] on values. *)
Definition Array_join (sep : jsstring) (a : list value) : completion jsstring :=
  l <- map_c elementString a ;; Normal (join sep l).

(* ================================================================== *)
(** * The response normalizer (lines 149-172, and again 267-285) *)
(* ================================================================== *)

(** [m.role === "assistant"], the predicate of [findLast]. *)
Definition isAssistant (m : json) : completion bool :=
  role <- Get (Some m) (u "role") ;; Normal (strictEq role (u "assistant")).

(** [c.type === "text"], the predicate of [filter]. *)
Definition isText (c : json) : completion bool :=
  ty <- Get (Some c) (u "type") ;; Normal (strictEq ty (u "text")).

(** [c.text], the function of [map]. *)
Definition textField (c : json) : completion value :=
  Get (Some c) (u "text").

(** The body of the [try] block: the summary it assigns, or [Throw] when it
    leaves through the [catch]. *)
Definition try_summary (text : jsstring) : completion jsstring :=
  match JSON_parse text with
  | None => Throw
  | Some json =>
      messages <- Get (Some json) (u "messages") ;;
      if ToBoolean messages && isArray messages then
        assistantMsg <- findLast isAssistant (elementsOf messages) ;;
        content <- match assistantMsg with
                   | None => Normal None            (* [?.] on undefined *)
                   | Some m => Get (Some m) (u "content")
                   end ;;
        if ToBoolean content then
          match content with
          | Some (JArr cs) =>
              filtered <- filter_c isText cs ;;
              texts <- map_c textField filtered ;;
              Array_join [10] texts
          | _ => Throw              (* [content.filter] is no function *)
          end
        else Normal text
      else Normal text
  end.

(** [summaryText] after the [try]/[catch]: the [catch] assigns the raw
    text. *)
Definition summaryText (text : jsstring) : jsstring :=
  match try_summary text with
  | Normal s => s
  | Throw => text
  end.

(** ** The normalizer in the words of the specification *)

(** An entry whose marker [key] equals [marker]. *)
Definition marked (key marker : jsstring) (entry : json) : bool :=
  match entry with
  | JObj members => strictEq (lookup key members) marker
  | _ => false
  end.

(** The [messages] sequence of a structured record. *)
Definition messages_of (j : json) : option (list json) :=
  match j with
  | JObj members =>
      match lookup (u "messages") members with
      | Some (JArr msgs) => Some msgs
      | _ => None
      end
  | _ => None
  end.

(** The content sequence of an entry. *)
Definition content_of (entry : json) : option (list json) :=
  match entry with
  | JObj members =>
      match lookup (u "content") members with
      | Some (JArr cs) => Some cs
      | _ => None
      end
  | _ => None
  end.

(** The [text] of an entry. *)
Definition text_of (entry : json) : value :=
  match entry with
  | JObj members => lookup (u "text") members
  | _ => None
  end.

(** The last entry of a sequence that satisfies [p]. *)
Definition last_such (p : json -> bool) (l : list json) : option json :=
  find p (rev l).

(** The entries that come after the last one satisfying [p]: all of them
    when none does. *)
Fixpoint until_such (p : json -> bool) (reversed : list json) : list json :=
  match reversed with
  | [] => []
  | x :: r => if p x then [] else x :: until_such p r
  end.

Definition after_last_such (p : json -> bool) (l : list json) : list json :=
  rev (until_such p (rev l)).

(** The texts of the entries of kind [text], in order, joined by line
    feeds; the raw text when a text cannot be printed. *)
Definition joined_texts (raw : jsstring) (cs : list json) : jsstring :=
  match Array_join [10] (map text_of (filter (marked (u "type") (u "text")) cs)) with
  | Normal s => s
  | Throw => raw
  end.

(** The algorithm of the specification: the last assistant message of a
    structured record gives the summary when it has a content sequence, the
    raw text is the summary otherwise. *)
Definition normalize_spec (raw : jsstring) : jsstring :=
  match JSON_parse raw with
  | None => raw
  | Some j =>
      match messages_of j with
      | None => raw
      | Some msgs =>
          match last_such (marked (u "role") (u "assistant")) msgs with
          | None => raw
          | Some a =>
              match content_of a with
              | None => raw
              | Some cs => joined_texts raw cs
              end
          end
      end
  end.

Definition notNull (j : json) : bool :=
  match j with
  | JNull => false
  | _ => true
  end.

(** No [null] among the entries the source visits: the messages after the
    last assistant message (all of them when there is none), and the content
    sequence of that message. *)
Definition null_free (raw : jsstring) : bool :=
  match JSON_parse raw with
  | None => true
  | Some j =>
      match messages_of j with
      | None => true
      | Some msgs =>
          forallb notNull (after_last_such (marked (u "role") (u "assistant")) msgs)
          && match last_such (marked (u "role") (u "assistant")) msgs with
             | None => true
             | Some a =>
                 match content_of a with
                 | None => true
                 | Some cs => forallb notNull cs
                 end
             end
      end
  end.

(** The summary comes from the content sequence [cs] of the last assistant
    message of the record [raw] parses to. *)
Definition from_assistant (raw : jsstring) (cs : list json) : Prop :=
  exists j msgs a,
    JSON_parse raw = Some j
    /\ messages_of j = Some msgs
    /\ last_such (marked (u "role") (u "assistant")) msgs = Some a
    /\ content_of a = Some cs.

End Numbers.

(* ================================================================== *)
(** * The subprocess, as the events its listeners receive *)
(* ================================================================== *)

Definition SUMMARY_PROMPT : jsstring := u
"Please analyze this image comprehensively. Extract ALL information from the image including:

1. **Overall Description**: What type of content is this? (screenshot, diagram, document, photograph, UI, code, etc.)
2. **Text Content**: ALL visible text in the image, preserving structure and formatting. Include labels, buttons, error messages, file paths, code snippets, etc. Be exhaustive.
3. **Visual Elements**: Colors, layout, components, icons, graphical elements
4. **Technical Details**: For code, UI, diagrams - include exact values, class names, IDs, parameters, configurations
5. **Contextual Information**: Window titles, terminal prompts, file names, timestamps, status indicators
6. **Structure**: How elements are organized, relationships between components
7. **Actionable Information**: Any visible commands, settings, configurations, or parameters that could be useful

Format your response clearly with sections and bullet points. Be extremely thorough - the user needs to understand everything visible in this image to perform their task.".

(** The argument vector of [spawn("pi", args)]: the same in the tool and in
    the command. *)
Definition spawn_args (absolutePath : jsstring) : list jsstring :=
  [ u "@" ++ absolutePath; u "--provider"; u "zai"; u "--model"; u "glm-4.6v";
    u "-p"; SUMMARY_PROMPT; u "--json" ].

(** What happens to one invocation after [spawn], in the order the event
    loop delivers it.  A trace holds the events up to the moment the
    invocation is looked at: for [execute], the moment it resumes after the
    [await]; what follows the settling event in a trace came in before the
    function resumed. *)
Inductive event :=
| StdoutData (chunk : jsstring)    (* [data] on [child.stdout]: the chunk
                                      as [data.toString()] decodes it *)
| StderrData (chunk : jsstring)    (* [data] on [child.stderr], likewise *)
| ChildError (message : jsstring)  (* [error] on the child, [err.message] *)
| Close (code : option Z)          (* [close]; the code is [null] when a
                                      signal ended the process *)
| Abort.                           (* the abort signal is activated *)

(** [`${code}`]. *)
Definition codeString (code : option Z) : jsstring :=
  match code with
  | Some z => ofZ z
  | None => u "null"
  end.

(** [code !== 0]. *)
Definition nonZero (code : option Z) : bool :=
  match code with
  | Some z => negb (Z.eqb z 0)
  | None => true
  end.

(** An event that only carries output. *)
Definition isData (e : event) : bool :=
  match e with
  | StdoutData _ => true
  | StderrData _ => true
  | _ => false
  end.

Definition isAbort (e : event) : bool :=
  match e with
  | Abort => true
  | _ => false
  end.

(** The standard output and the standard error a trace carries. *)
Fixpoint stdout_of (trace : list event) : jsstring :=
  match trace with
  | [] => []
  | StdoutData d :: r => d ++ stdout_of r
  | _ :: r => stdout_of r
  end.

Fixpoint stderr_of (trace : list event) : jsstring :=
  match trace with
  | [] => []
  | StderrData d :: r => d ++ stderr_of r
  | _ :: r => stderr_of r
  end.

(** How a promise was settled. *)
Inductive settlement :=
| Resolved (text : jsstring)
| Rejected (message : jsstring).

(* ================================================================== *)
(** * The [read] tool override ([execute], lines 65-193) *)
(* ================================================================== *)

Module Tool.

(** The state the listeners of one [execute] share: the two buffers, the
    promise, whether [onAbort] is still registered on the signal, the signal
    ([None] when [execute] got none, else its [aborted] flag), and the calls
    of [child.kill] so far. *)
Record state := {
  stdout : jsstring;
  stderr : jsstring;
  promise : option settlement;
  onAbort : bool;
  signal : option bool;
  kills : nat
}.

(** [resolveResult] and [reject]: a settled promise ignores them. *)
Definition settle (s : settlement) (st : state) : state :=
  match promise st with
  | Some _ => st
  | None =>
      {| stdout := stdout st; stderr := stderr st; promise := Some s;
         onAbort := onAbort st; signal := signal st; kills := kills st |}
  end.

(** After the executor has run: [onAbort] is registered whenever there is
    a signal (line 138), whatever its flag. *)
Definition init (sig : option bool) : state :=
  {| stdout := []; stderr := []; promise := None;
     onAbort := match sig with Some _ => true | None => false end;
     signal := sig;
     kills := 0 |}.

(** [signal?.aborted]. *)
Definition aborted (st : state) : bool :=
  match signal st with
  | Some b => b
  | None => false
  end.

Definition failed_message (code : option Z) (err : jsstring) : jsstring :=
  u "pi subprocess failed (" ++ codeString code ++ u "): " ++ err.

Definition aborted_message : jsstring := u "Operation aborted".

(** One event, through the listeners of lines 112-142. *)
Definition step (st : state) (e : event) : state :=
  match e with
  | StdoutData d =>
      {| stdout := stdout st ++ d; stderr := stderr st; promise := promise st;
         onAbort := onAbort st; signal := signal st; kills := kills st |}
  | StderrData d =>
      {| stdout := stdout st; stderr := stderr st ++ d; promise := promise st;
         onAbort := onAbort st; signal := signal st; kills := kills st |}
  | ChildError m => settle (Rejected m) st
  | Close code =>
      (* the first listener settles, the second one removes [onAbort] *)
      let st' :=
        if nonZero code
        then settle (Rejected (failed_message code (stderr st))) st
        else settle (Resolved (trim (stdout st))) st in
      {| stdout := stdout st'; stderr := stderr st'; promise := promise st';
         onAbort := false; signal := signal st'; kills := kills st' |}
  | Abort =>
      (* a signal fires [abort] once; [onAbort] is registered with [once] *)
      match signal st with
      | None => st
      | Some true => st
      | Some false =>
          if onAbort st then
            settle (Rejected aborted_message)
              {| stdout := stdout st; stderr := stderr st; promise := promise st;
                 onAbort := false; signal := Some true; kills := S (kills st) |}
          else
            {| stdout := stdout st; stderr := stderr st; promise := promise st;
               onAbort := false; signal := Some true; kills := kills st |}
      end
  end.

Definition run (st : state) (trace : list event) : state :=
  fold_left step trace st.

(** What lines 91-147 give once the promise is settled: the raw text, or
    the message of the error they throw.  Line 145 throws when the signal is
    aborted by the time execution resumes. *)
Inductive attempt :=
| Got (text : jsstring)
| Raised (message : jsstring).

Definition awaited (st : state) : option attempt :=
  match promise st with
  | None => None
  | Some (Rejected m) => Some (Raised m)
  | Some (Resolved t) =>
      Some (if aborted st then Raised aborted_message else Got t)
  end.

(** The three outcomes of the specification.  The source tells a
    cancellation from a process error by the message alone. *)
Inductive DelegationOutcome :=
| Success (rawText : jsstring)
| ProcessError (message : jsstring)
| Cancelled.

Definition outcome_of (a : attempt) : DelegationOutcome :=
  match a with
  | Got t => Success t
  | Raised m => if eqb m aborted_message then Cancelled else ProcessError m
  end.

(** The delegation invoker: the outcome of an invocation with the given
    signal over a trace, [None] while the promise is pending. *)
Definition invoke (sig : option bool) (trace : list event)
  : option DelegationOutcome :=
  option_map outcome_of (awaited (run (init sig) trace)).

Inductive Content :=
| TextContent (text : jsstring)
| ImageContent (data mimeType : jsstring).

(** A tool result: content blocks and a [details] object. *)
Record ToolResult := {
  content : list Content;
  details : list (jsstring * json)
}.

Record Error := {
  message : jsstring;
  isToolError : bool
}.

(** How a call of [execute] ends; [Pending] while the subprocess has not
    settled the promise. *)
Inductive outcome :=
| Returned (r : ToolResult)
| Threw (e : Error)
| Pending.

Record ReadParams := {
  path : jsstring;
  offset : option Z;
  limit : option Z
}.

(** What [execute] reads of its context: [ctx.cwd] and [ctx.model?.id]. *)
Record Context := {
  cwd : jsstring;
  model : option jsstring
}.

(** What a call of [execute] does: how it ends, its own calls of
    [onUpdate], the argument vectors it spawned [pi] with, and the calls of
    [child.kill]. *)
Record Run := {
  result : outcome;
  updates : list ToolResult;
  spawned : list (list jsstring);
  killed : nat
}.

Definition progress : ToolResult :=
  {| content := [TextContent (u "[Analyzing image with glm-4.6v...]")];
     details := [] |}.

Definition readResult (summary : jsstring) : ToolResult :=
  {| content := [TextContent (u "[Image analyzed with glm-4.6v]" ++ [10; 10] ++ summary)];
     details := [(u "summaryModel", JStr (u "glm-4.6v"))] |}.

(** The closing sentence of the error message: the common causes. *)
Definition common_causes : jsstring :=
  u ". The image may not be supported (e.g., animated GIFs) or there was a connection issue.".

Definition errorMsg (m : jsstring) : jsstring :=
  u "Image analysis failed with glm-4.6v: " ++ m ++ common_causes.

Section Execute.

(** The collaborators: [path.resolve] of Node, the host's read tool made by
    [createReadTool], and the two number built-ins. *)
Variable resolve : jsstring -> jsstring -> jsstring.
Variable localRead_execute : jsstring -> ReadParams -> option bool -> outcome.
Variable Number_toString : jsstring -> jsstring.
Variable join_depth : nat.
Variable Number_isZero : jsstring -> bool.

Definition isGlm4_7 (ctx : Context) : bool :=
  match model ctx with
  | Some id => eqb id (u "glm-4.7") || eqb id (u "glm-4.7-long")
  | None => false
  end.

(** The delegation triggers of the specification: the primary model and
    its long-context variant. *)
Definition trigger (ctx : Context) : Prop :=
  model ctx = Some (u "glm-4.7") \/ model ctx = Some (u "glm-4.7-long").

(** The standard read: the host's result, nothing of the extension's own. *)
Definition passthrough (toolCallId : jsstring) (params : ReadParams)
  (sig : option bool) : Run :=
  {| result := localRead_execute toolCallId params sig;
     updates := []; spawned := []; killed := 0 |}.

(** [execute(toolCallId, params, signal, onUpdate, ctx)] over the events
    of its subprocess, [onUpdate] telling whether the callback was given. *)
Definition execute (toolCallId : jsstring) (params : ReadParams)
  (sig : option bool) (onUpdate : bool) (ctx : Context)
  (trace : list event) : Run :=
  let absolutePath := resolve (cwd ctx) (path params) in
  if negb (isGlm4_7 ctx) then passthrough toolCallId params sig
  else
    let mimeType := detectImageMimeType absolutePath in
    if falsy mimeType then passthrough toolCallId params sig
    else
      let st := run (init sig) trace in
      let note (l : list ToolResult) := if onUpdate then l else [] in
      match awaited st with
      | None =>
          {| result := Pending; updates := note [progress];
             spawned := [spawn_args absolutePath]; killed := kills st |}
      | Some (Got text) =>
          let r := readResult (summaryText Number_toString join_depth Number_isZero text) in
          {| result := Returned r; updates := note [progress; r];
             spawned := [spawn_args absolutePath]; killed := kills st |}
      | Some (Raised m) =>
          {| result := Threw {| message := errorMsg m; isToolError := true |};
             updates := note [progress];
             spawned := [spawn_args absolutePath]; killed := kills st |}
      end.

End Execute.

End Tool.

(* ================================================================== *)
(** * The command [analyze-image] ([handler], lines 199-308) *)
(* ================================================================== *)

Module Command.

Inductive level := error | info.

(** The state of the widget callback of lines 221-299: the two buffers, the
    value [done] was first called with ([None] before any call; [Some None]
    for [done(null)]), whether the loader's signal is aborted, the calls of
    [child.kill], and the notifications and editor views so far, latest
    first. *)
Record state := {
  stdout : jsstring;
  stderr : jsstring;
  done : option (option jsstring);
  aborted : bool;
  kills : nat;
  notified : list (jsstring * level);
  shown : list (jsstring * jsstring)
}.

Definition init : state :=
  {| stdout := []; stderr := []; done := None; aborted := false; kills := 0;
     notified := []; shown := [] |}.

Definition notify (m : jsstring) (l : level) (st : state) : state :=
  {| stdout := stdout st; stderr := stderr st; done := done st;
     aborted := aborted st; kills := kills st;
     notified := (m, l) :: notified st; shown := shown st |}.

(** Lines 301-307, run once the widget's promise has its value. *)
Definition resume (result : option jsstring) (st : state) : state :=
  match result with
  | None => notify (u "Cancelled") info st
  | Some text =>
      {| stdout := stdout st; stderr := stderr st; done := done st;
         aborted := aborted st; kills := kills st;
         notified := notified st;
         shown := (u "Image Analysis", text) :: shown st |}
  end.

(** [done(result)]: the first call gives the widget's promise its value and
    the handler resumes; later calls change nothing. *)
Definition call_done (result : option jsstring) (st : state) : state :=
  match done st with
  | Some _ => st
  | None =>
      resume result
        {| stdout := stdout st; stderr := stderr st; done := Some result;
           aborted := aborted st; kills := kills st;
           notified := notified st; shown := shown st |}
  end.

Section Handler.

Variable resolve : jsstring -> jsstring -> jsstring.
Variable Number_toString : jsstring -> jsstring.
Variable join_depth : nat.
Variable Number_isZero : jsstring -> bool.

(** One event, through the listeners of lines 223-296.  [Abort] is the
    loader aborting: its signal fires (once) and [onAbort] is called.  The
    loader is new when the listeners are set, so the test of line 290 finds
    its signal not aborted. *)
Definition step (st : state) (e : event) : state :=
  match e with
  | StdoutData d =>
      {| stdout := stdout st ++ d; stderr := stderr st; done := done st;
         aborted := aborted st; kills := kills st;
         notified := notified st; shown := shown st |}
  | StderrData d =>
      {| stdout := stdout st; stderr := stderr st ++ d; done := done st;
         aborted := aborted st; kills := kills st;
         notified := notified st; shown := shown st |}
  | ChildError m =>
      call_done None (notify (u "Analysis failed: " ++ m) error st)
  | Close code =>
      if nonZero code
      then call_done None (notify (u "Analysis failed: " ++ stderr st) error st)
      else call_done (Some (summaryText Number_toString join_depth Number_isZero (stdout st))) st
  | Abort =>
      call_done None
        (if aborted st then st
         else {| stdout := stdout st; stderr := stderr st; done := done st;
                 aborted := true; kills := S (kills st);
                 notified := notified st; shown := shown st |})
  end.

Definition run (st : state) (trace : list event) : state :=
  fold_left step trace st.

(** What a call of the handler does: its notifications and editor views
    in order, the argument vectors it spawned [pi] with, and the calls of
    [child.kill]. *)
Record Run := {
  notifications : list (jsstring * level);
  displayed : list (jsstring * jsstring);
  spawned : list (list jsstring);
  killed : nat
}.

Definition only (m : jsstring) : Run :=
  {| notifications := [(m, error)]; displayed := []; spawned := []; killed := 0 |}.

(** [handler(args, ctx)] over the events of its subprocess; [hasUI] and
    [cwd] are what it reads of [ctx]. *)
Definition handler (args : jsstring) (hasUI : bool) (cwd : jsstring)
  (trace : list event) : Run :=
  if negb hasUI then only (u "analyze-image requires interactive mode")
  else
    let imagePath := trim args in
    if eqb imagePath [] then only (u "Usage: /analyze-image <path-to-image>")
    else
      let absolutePath := resolve cwd imagePath in
      let mimeType := detectImageMimeType absolutePath in
      if falsy mimeType then only (u "Not a supported image file")
      else
        let st := run init trace in
        {| notifications := rev (notified st);
           displayed := rev (shown st);
           spawned := [spawn_args absolutePath];
           killed := kills st |}.

End Handler.

End Command.

(* ================================================================== *)
(** * Collaborators at concrete inputs *)
(* ================================================================== *)

(** [path.resolve(cwd, p)] where nothing is to be normalised: an absolute
    [p] as it is, a relative one under [cwd]. *)
Definition resolve_plain (cwd p : jsstring) : jsstring :=
  match p with
  | 47 :: _ => p
  | _ => cwd ++ [47] ++ p
  end.

(** A read tool that answers every request with one text block. *)
Definition read_plain (toolCallId : jsstring) (params : Tool.ReadParams)
  (sig : option bool) : Tool.outcome :=
  Tool.Returned {| Tool.content := [Tool.TextContent (u "file body")];
                   Tool.details := [] |}.

(** [Number::toString] on the lexemes that are printed as written (plain
    integers), a zero test for texts that hold no number, and room for a
    hundred nested arrays. *)
Definition number_plain (lexeme : jsstring) : jsstring := lexeme.
Definition depth_plain : nat := 100.
Definition iszero_plain (lexeme : jsstring) : bool := false.

(** Inputs of the examples. *)

(** The raw text of the specification's example and its variations. *)
Definition red_circle : jsstring :=
  dq "{'messages':[{'role':'user','content':[]},{'role':'assistant','content':[{'type':'text','text':'A red circle.'}]}]}".

Definition null_entry : jsstring :=
  dq "{'messages':[{'role':'assistant','content':[null,{'type':'text','text':'hi'}]}]}".

(** A reply whose text is an array in an array in an array. *)
Definition nested_text : jsstring :=
  dq "{'messages':[{'role':'assistant','content':[{'type':'text','text':[[[1,2]]]}]}]}".

Definition no_entries : jsstring :=
  dq "{'messages':[{'role':'assistant','content':[]}]}".

Definition glm_ctx : Tool.Context :=
  {| Tool.cwd := u "/work"; Tool.model := Some (u "glm-4.7") |}.

Definition other_ctx : Tool.Context :=
  {| Tool.cwd := u "/work"; Tool.model := Some (u "claude-sonnet") |}.

Definition png_params : Tool.ReadParams :=
  {| Tool.path := u "shot.png"; Tool.offset := None; Tool.limit := None |}.

(** A run that fails with code 1, and one that prints the example. *)
Definition failing_trace : list event :=
  [StderrData (u "model unavailable"); Close (Some 1%Z)].

Definition success_trace : list event :=
  [StdoutData red_circle; StdoutData [10]; Close (Some 0%Z)].

Definition plain_execute :=
  Tool.execute resolve_plain read_plain number_plain depth_plain iszero_plain.

Definition plain_handler :=
  Command.handler resolve_plain number_plain depth_plain iszero_plain.

(* ================================================================== *)
(** * Properties of traces *)
(* ================================================================== *)

(** What holds of a later state once [done] has been called with [x]: the
    value stays, no further editor opens, the notifications so far stay (new
    ones come on top), and an aborted loader kills no more. *)
Definition done_in (x : option jsstring) (st st' : Command.state) : Prop :=
  Command.done st' = Some x
  /\ Command.shown st' = Command.shown st
  /\ (exists more, Command.notified st' = more ++ Command.notified st)
  /\ (Command.aborted st = true ->
      Command.aborted st' = true /\ Command.kills st' = Command.kills st).

(** An event that settles a pending promise of [execute] called with the
    signal [sig]: an error, a close, and an abort when the signal was not
    aborted at the call. *)
Definition settles (sig : option bool) (e : event) : bool :=
  match e with
  | ChildError _ => true
  | Close _ => true
  | Abort => match sig with Some false => true | _ => false end
  | _ => false
  end.

(** The strings among the texts of the entries of kind [text], in order. *)
Definition plain_texts (cs : list json) : list jsstring :=
  flat_map (fun c =>
              if marked (u "type") (u "text") c
              then match text_of c with
                   | Some (JStr t) => [t]
                   | _ => []
                   end
              else []) cs.

(** No entry is [null], and the text of every entry of kind [text] is a
    string. *)
Definition string_parts (cs : list json) : bool :=
  forallb (fun c =>
             notNull c
             && (negb (marked (u "type") (u "text") c)
                 || match text_of c with
                    | Some (JStr _) => true
                    | _ => false
                    end)) cs.

(** A string that does not start with white space. *)
Definition cleanStart (s : jsstring) : Prop :=
  match s with
  | [] => True
  | c :: _ => isTrimSpace c = false
  end.

(** The command has at most one outcome: before [done] nothing is shown
    and nothing cancelled; after [done(null)] nothing is shown; after
    [done(text)] that text is the one editor view and nothing was cancelled. *)
Definition one_outcome (st : Command.state) : Prop :=
  match Command.done st with
  | None =>
      Command.shown st = []
      /\ ~ In (u "Cancelled", Command.info) (Command.notified st)
  | Some None => Command.shown st = []
  | Some (Some text) =>
      Command.shown st = [(u "Image Analysis", text)]
      /\ ~ In (u "Cancelled", Command.info) (Command.notified st)
  end.

(** A reply whose content is a string, and one with two text parts around
    an image part. *)
Definition string_content : jsstring :=
  dq "{'messages':[{'role':'assistant','content':'hello'}]}".

Definition mixed_parts : jsstring :=
  dq "{'messages':[{'role':'assistant','content':[{'type':'text','text':'A'},{'type':'image'},{'type':'text','text':'B'}]}]}".

(** The four MIME types of the supported images. *)
Definition image_types : list jsstring :=
  [u "image/jpeg"; u "image/png"; u "image/gif"; u "image/webp"].

(* ================================================================== *)
(** * Strings: equality, splitting, the text after the last separator *)
(* ================================================================== *)

Lemma eqb_eq (a b : jsstring) : eqb a b = true <-> a = b.
Proof.
  revert b; induction a as [|x a IH]; intros [|y b]; simpl; split;
    try congruence; try reflexivity.
  - intros H. apply andb_true_iff in H as [Hx Hab].
    apply N.eqb_eq in Hx. apply IH in Hab. congruence.
  - intros H. injection H as -> ->.
    rewrite N.eqb_refl. simpl. now apply IH.
Qed.

Lemma eqb_refl (a : jsstring) : eqb a a = true.
Proof. now apply eqb_eq. Qed.

Lemma eqb_neq (a b : jsstring) : eqb a b = false <-> a <> b.
Proof.
  split.
  - intros H E. apply eqb_eq in E. congruence.
  - intros H. destruct (eqb a b) eqn:E; [|reflexivity].
    apply eqb_eq in E. contradiction.
Qed.

Lemma includes_In (l : list jsstring) (x : jsstring) :
  includes l x = true <-> In x l.
Proof.
  unfold includes. rewrite existsb_exists. split.
  - intros (y & Hy & E). apply eqb_eq in E. now subst.
  - intros H. exists x. split; [assumption|apply eqb_refl].
Qed.

Lemma after_last_None (sep : N) (s : jsstring) :
  after_last sep s = None <-> ~ In sep s.
Proof.
  induction s as [|c r IH]; simpl.
  - split; [intros _ []|reflexivity].
  - destruct (after_last sep r) as [e|].
    + split; [discriminate|]. intros H. exfalso.
      assert (Some e = None) as E' by (apply IH; intros Hr; apply H; now right).
      discriminate.
    + destruct (N.eqb_spec c sep) as [->|Hc].
      * split; [discriminate|]. intros H. exfalso. apply H. now left.
      * split; [|reflexivity]. intros _ [H|H]; [congruence|].
        now apply (proj1 IH).
Qed.

Lemma after_last_app (sep : N) (pre e : jsstring) :
  ~ In sep e -> after_last sep (pre ++ sep :: e) = Some e.
Proof.
  intros Hn. induction pre as [|x pre IH]; simpl.
  - apply after_last_None in Hn. rewrite Hn. now rewrite N.eqb_refl.
  - now rewrite IH.
Qed.

Lemma after_last_Some (sep : N) (s e : jsstring) :
  after_last sep s = Some e ->
  exists pre, s = pre ++ sep :: e /\ ~ In sep e.
Proof.
  revert e; induction s as [|c r IH]; intros e; simpl; [discriminate|].
  destruct (after_last sep r) as [e'|] eqn:E.
  - intros [= ->]. destruct (IH e eq_refl) as (pre & -> & Hn).
    exists (c :: pre). now split.
  - apply after_last_None in E. destruct (N.eqb_spec c sep) as [->|Hc].
    + intros [= ->]. exists []. now split.
    + discriminate.
Qed.

Lemma pop_last {A : Type} (l : list A) (x : A) : pop (l ++ [x]) = Some x.
Proof.
  induction l as [|y l IH]; [reflexivity|].
  simpl. destruct (l ++ [x]) eqn:E; [now destruct l|exact IH].
Qed.

(** A string without separator is the one piece of its split; otherwise the
    last piece is the text after the last separator. *)
Lemma split_shape (sep : N) (s : jsstring) :
  match after_last sep s with
  | None => split sep s = [s]
  | Some e => exists h t, split sep s = h :: t ++ [e]
  end.
Proof.
  induction s as [|c r IH]; simpl; [reflexivity|].
  destruct (after_last sep r) as [e|].
  - destruct IH as (h & t & ->).
    destruct (c =? sep).
    + now exists [], (h :: t).
    + now exists (c :: h), t.
  - rewrite IH. destruct (c =? sep).
    + now exists [], [].
    + reflexivity.
Qed.

Lemma pop_split (sep : N) (s : jsstring) :
  pop (split sep s) =
  Some (match after_last sep s with Some e => e | None => s end).
Proof.
  pose proof (split_shape sep s) as H.
  destruct (after_last sep s) as [e|].
  - destruct H as (h & t & ->). apply (pop_last (h :: t) e).
  - now rewrite H.
Qed.

Lemma after_last_concat (sep : N) (a b : jsstring) :
  after_last sep (a ++ b) =
  match after_last sep b with
  | Some x => Some x
  | None => option_map (fun x => x ++ b) (after_last sep a)
  end.
Proof.
  induction a as [|c a IH]; simpl.
  - now destruct (after_last sep b).
  - rewrite IH. destruct (after_last sep b) as [x|]; [reflexivity|].
    destruct (after_last sep a); simpl; [reflexivity|].
    now destruct (c =? sep).
Qed.

Lemma existsb_In (c : N) (s : jsstring) :
  existsb (N.eqb c) s = true <-> In c s.
Proof.
  rewrite existsb_exists. split.
  - intros (x & Hx & E). apply N.eqb_eq in E. now subst.
  - intros H. exists c. split; [assumption|apply N.eqb_refl].
Qed.

(* ================================================================== *)
(** * The classifier against the file extension *)
(* ================================================================== *)

Lemma basename_without_dot (path : jsstring) :
  after_last 46 path = None -> after_last 46 (basename path) = None.
Proof.
  intros H. unfold basename.
  destruct (after_last 47 path) as [b|] eqn:Eb; [|assumption].
  apply after_last_Some in Eb as (pre & -> & _).
  apply after_last_None. apply after_last_None in H.
  intros Hin. apply H. apply in_or_app. right. now right.
Qed.

Lemma basename_with_dot (path e : jsstring) :
  after_last 46 path = Some e ->
  after_last 46 (basename path) = if existsb (N.eqb 47) e then None else Some e.
Proof.
  intros H. apply after_last_Some in H as (pre & -> & Hdot).
  unfold basename.
  rewrite (after_last_concat 47 pre (46 :: e)).
  change (after_last 47 (46 :: e)) with
    (match after_last 47 e with Some x => Some x | None => None end).
  destruct (existsb (N.eqb 47) e) eqn:Es.
  - (* the last slash comes after the last dot *)
    apply existsb_In in Es.
    destruct (after_last 47 e) as [b|] eqn:Eb.
    + apply after_last_Some in Eb as (x & -> & _).
      apply after_last_None. intros Hin. apply Hdot.
      apply in_or_app. right. now right.
    + apply after_last_None in Eb. contradiction.
  - assert (~ In 47 e) as Hs.
    { intros Hin. apply existsb_In in Hin. congruence. }
    apply after_last_None in Hs. rewrite Hs.
    destruct (after_last 47 pre) as [x|]; simpl.
    + now apply after_last_app.
    + now apply after_last_app.
Qed.

Lemma lower_slash (e : jsstring) : In 47 e -> In 47 (toLowerCase e).
Proof.
  intros H. unfold toLowerCase. change 47 with (lower 47). now apply in_map.
Qed.

Lemma supported_plain (x : jsstring) :
  includes supported x = true -> ~ In 47 x /\ x <> [].
Proof.
  intros H. apply includes_In in H. unfold supported in H. simpl in H.
  destruct H as [<-|[<-|[<-|[<-|[<-|[]]]]]]; (split; [|discriminate]);
    cbv; intuition discriminate.
Qed.

Lemma detect_by_ext (path : jsstring) :
  detectImageMimeType path =
  let ext := toLowerCase (match after_last 46 path with
                          | Some e => e
                          | None => path
                          end) in
  if includes supported ext then Some (mime_of ext) else None.
Proof.
  unfold detectImageMimeType, path_ext. rewrite pop_split.
  cbv zeta. unfold option_map, mime_of.
  set (ext := toLowerCase _).
  destruct (includes supported ext) eqn:E.
  - apply supported_plain in E as [_ Hne]. apply eqb_neq in Hne.
    now rewrite Hne.
  - now rewrite andb_false_r.
Qed.

Lemma detect_not_empty (path : jsstring) :
  falsy (detectImageMimeType path) =
  match detectImageMimeType path with Some _ => false | None => true end.
Proof.
  rewrite detect_by_ext. cbv zeta.
  set (ext := toLowerCase _).
  now destruct (includes supported ext).
Qed.

(** A path that starts with a slash and has none at its end (the root
    apart) has for file name what follows its last slash. *)
Lemma file_name_resolved (rest : jsstring) :
  ends_in_slash rest = false -> file_name (47 :: rest) = basename (47 :: rest).
Proof.
  unfold ends_in_slash, file_name, strip_slashes. intros H.
  change (rev (47 :: rest)) with (rev rest ++ [47]).
  destruct (rev rest) as [|c r] eqn:E.
  - apply (f_equal (@rev N)) in E. rewrite rev_involutive in E. now subst rest.
  - cbn [app drop_slashes]. rewrite H.
    change (c :: r ++ [47]) with ((c :: r) ++ [47]).
    apply (f_equal (@rev N)) in E. rewrite rev_involutive in E. subst rest.
    now rewrite rev_app_distr.
Qed.

(** On a path that is not itself, in any case, one of the five names, and
    whose file name is what follows its last slash, the classifier is the
    classification by what follows the last dot of the file name. *)
Lemma classify_suffix (path : jsstring) :
  includes supported (toLowerCase path) = false ->
  file_name path = basename path ->
  classify path = classify_by_suffix path.
Proof.
  unfold classify, classify_by_suffix, dot_suffix. rewrite detect_by_ext. cbv zeta.
  intros Hp ->. revert Hp.
  destruct (after_last 46 path) as [e0|] eqn:E0.
  - rewrite (basename_with_dot path e0 E0). intros _.
    destruct (existsb (N.eqb 47) e0) eqn:Es.
    + destruct (includes supported (toLowerCase e0)) eqn:Ei; [|reflexivity].
      apply supported_plain in Ei as [Hn _]. exfalso. apply Hn.
      apply lower_slash. now apply existsb_In.
    + now destruct (includes supported (toLowerCase e0)).
  - rewrite (basename_without_dot path E0). now intros ->.
Qed.

Lemma absolute_not_supported (rest : jsstring) :
  includes supported (toLowerCase (47 :: rest)) = false.
Proof.
  destruct (includes supported (toLowerCase (47 :: rest))) eqn:E; [|reflexivity].
  apply supported_plain in E as [Hn _]. exfalso. apply Hn. now left.
Qed.

(** Away from dot-files, what follows the last dot of the file name is the
    file extension. *)
Lemma dot_suffix_extension (path : jsstring) :
  dot_file path = false -> dot_suffix path = file_extension path.
Proof.
  unfold dot_file, dot_suffix, file_extension.
  destruct (file_name path) as [|c r]; [reflexivity|].
  destruct (N.eqb_spec c 46) as [->|Hc]; [discriminate|]. intros _.
  assert (after_last 46 (c :: r) = after_last 46 r) as ->.
  { simpl. destruct (after_last 46 r); [reflexivity|].
    apply N.eqb_neq in Hc. now rewrite Hc. }
  destruct c as [|[p|p|]]; try reflexivity;
    destruct p as [p|p|]; try reflexivity;
    destruct p as [p|p|]; try reflexivity;
    destruct p as [p|p|]; try reflexivity;
    destruct p as [p|p|]; try reflexivity;
    destruct p as [p|p|]; try reflexivity; contradiction.
Qed.

(** C5, as amended.  For every resolved path (what [path.resolve] gives
    the classifier: a slash, then a text that does not end in a slash): the
    path is an image, with the matching MIME type (jpg gives image/jpeg, the
    others image/<ext>), exactly when what follows the last dot of its file
    name is, in any case, one of jpg, jpeg, png, gif, webp, and no image
    otherwise; when the file name does not start with a dot this is the
    classification by file extension: any other extension, or none, is no
    image. *)
Theorem classify_by_file_extension (rest : jsstring) :
  let path := 47 :: rest in
  ends_in_slash rest = false ->
  classify path = classify_by_suffix path
  /\ (dot_file path = false -> classify path = classify_by_extension path).
Proof.
  cbv zeta. intros Hr.
  pose proof (classify_suffix _ (absolute_not_supported rest)
                (file_name_resolved rest Hr)) as Hc.
  split; [exact Hc|].
  intros H. rewrite Hc.
  unfold classify_by_suffix, classify_by_extension.
  now rewrite (dot_suffix_extension _ H).
Qed.

(** C5, at concrete paths: an upper-case extension, a text file, a file
    without extension in a directory named like an image, the root. *)
Lemma classify_by_file_extension_witness :
  classify (u "/home/me/Photo.JPG") = Image (u "image/jpeg")
  /\ classify (u "/home/me/notes.txt") = NotImage
  /\ classify (u "/home/pics.png/README") = NotImage
  /\ classify (u "/") = NotImage.
Proof.
  refine (conj _ (conj _ (conj _ _))).
  - exact (proj2 (classify_by_file_extension (u "home/me/Photo.JPG") eq_refl) eq_refl).
  - exact (proj2 (classify_by_file_extension (u "home/me/notes.txt") eq_refl) eq_refl).
  - exact (proj2 (classify_by_file_extension (u "home/pics.png/README") eq_refl) eq_refl).
  - exact (proj2 (classify_by_file_extension [] eq_refl) eq_refl).
Defined.

(** C5, as stated, fails at the dot-file [/home/me/.png], the resolved path
    of the file [.png] in [/home/me]: the file has no extension, and the
    classifier answers image/png. *)
Lemma classify_dot_file_counterexample :
  resolve_plain (u "/home/me") (u ".png") = u "/home/me/.png"
  /\ file_extension (u "/home/me/.png") = None
  /\ classify_by_extension (u "/home/me/.png") = NotImage
  /\ classify (u "/home/me/.png") = Image (u "image/png").
Proof. repeat split. Qed.

(* ================================================================== *)
(** * [JSON.parse] terminates: the parser never exhausts its fuel *)
(* ================================================================== *)

Local Abbreviation len := (@List.length N).

Lemma skip_ws_le (s : jsstring) : (len (skip_ws s) <= len s)%nat.
Proof.
  induction s as [|c r IH]; simpl; [lia|].
  destruct (isJsonSpace c); simpl; lia.
Qed.

Lemma skip_ws_cons (s r : jsstring) (c : N) :
  skip_ws s = c :: r -> (len r < len s)%nat.
Proof.
  intros H. pose proof (skip_ws_le s) as L. rewrite H in L. simpl in L. lia.
Qed.

Lemma lex_string_lt (n : nat) :
  forall s x rest,
    (len s <= n)%nat -> lex_string s = Some (x, rest) -> (len rest < len s)%nat.
Proof.
  induction n as [|n IH]; intros s x rest Hn H.
  - destruct s; [discriminate|simpl in Hn; lia].
  - destruct s as [|c r]; [discriminate|]. simpl in Hn. simpl in H.
    destruct (c =? 34).
    { injection H as _ <-. simpl. lia. }
    destruct (c =? 92).
    + destruct r as [|e r1]; [discriminate|]. simpl in Hn.
      destruct (e =? 117).
      * destruct r1 as [|h1 [|h2 [|h3 [|h4 r2]]]]; try discriminate.
        simpl in Hn.
        destruct (hexval h1), (hexval h2), (hexval h3), (hexval h4);
          try discriminate.
        destruct (lex_string r2) as [[str rest']|] eqn:E; [|discriminate].
        injection H as _ <-. apply IH in E; simpl; lia.
      * destruct (unescape e); [|discriminate].
        destruct (lex_string r1) as [[str rest']|] eqn:E; [|discriminate].
        injection H as _ <-. apply IH in E; simpl; lia.
    + destruct (c <? 32); [discriminate|].
      destruct (lex_string r) as [[str rest']|] eqn:E; [|discriminate].
      injection H as _ <-. apply IH in E; simpl; lia.
Qed.

Lemma span_digits_le (s : jsstring) :
  (len (snd (span_digits s)) <= len s)%nat.
Proof.
  induction s as [|c r IH]; simpl; [lia|].
  destruct (isDigit c); simpl; [|lia].
  destruct (span_digits r); simpl in *; lia.
Qed.

Lemma lex_digits_le (s d rest : jsstring) :
  lex_digits s = Some (d, rest) -> (len rest <= len s)%nat.
Proof.
  unfold lex_digits. pose proof (span_digits_le s) as L.
  destruct (span_digits s) as [[|x d'] r]; [discriminate|].
  intros [= _ <-]. exact L.
Qed.

Lemma lex_number_le (s lexeme rest : jsstring) :
  lex_number s = Some (lexeme, rest) -> (len rest <= len s)%nat.
Proof.
  unfold lex_number.
  assert (len (snd (lex_minus s)) <= len s)%nat as L0.
  { destruct s as [|c r]; simpl; [lia|]. destruct (c =? 45); simpl; lia. }
  destruct (lex_minus s) as [m r0]. simpl in L0.
  destruct (lex_int r0) as [[i r1]|] eqn:Ei; [|discriminate].
  assert (len r1 <= len r0)%nat as L1.
  { unfold lex_int in Ei. destruct r0 as [|c r]; [discriminate|].
    destruct (c =? 48); [injection Ei as _ <-; simpl; lia|].
    destruct (isDigit c); [|discriminate].
    pose proof (span_digits_le r) as L. destruct (span_digits r).
    injection Ei as _ <-. simpl in *. lia. }
  destruct (lex_frac r1) as [[f r2]|] eqn:Ef; [|discriminate].
  assert (len r2 <= len r1)%nat as L2.
  { unfold lex_frac in Ef. destruct r1 as [|c r]; [injection Ef as _ <-; simpl; lia|].
    destruct (c =? 46).
    - destruct (lex_digits r) as [[d rest']|] eqn:Ed; [|discriminate].
      apply lex_digits_le in Ed. injection Ef as _ <-. simpl. lia.
    - injection Ef as _ <-. lia. }
  destruct (lex_exp r2) as [[e r3]|] eqn:Ee; [|discriminate].
  assert (len r3 <= len r2)%nat as L3.
  { unfold lex_exp in Ee. destruct r2 as [|c r]; [injection Ee as _ <-; simpl; lia|].
    destruct ((c =? 101) || (c =? 69)).
    - assert (len (snd (lex_sign r)) <= len r)%nat as Ls.
      { destruct r as [|y r']; simpl; [lia|].
        destruct ((y =? 43) || (y =? 45)); simpl; lia. }
      destruct (lex_sign r) as [sg r']. simpl in Ls.
      destruct (lex_digits r') as [[d rest']|] eqn:Ed; [|discriminate].
      apply lex_digits_le in Ed. injection Ee as _ <-. simpl. lia.
    - injection Ee as _ <-. lia. }
  intros [= _ <-]. lia.
Qed.

Lemma strip_prefix_le (p s rest : jsstring) :
  strip_prefix p s = Some rest -> (len rest <= len s)%nat.
Proof.
  revert s; induction p as [|x p IH]; intros s; simpl.
  - intros [= <-]. lia.
  - destruct s as [|y s]; [discriminate|].
    destruct (x =? y); [|discriminate]. intros H. apply IH in H. simpl. lia.
Qed.

Lemma lex_literal_le (word : jsstring) (v w : json) (s rest : jsstring) :
  lex_literal word v s = Parsed w rest -> (len rest <= len s)%nat.
Proof.
  unfold lex_literal. destruct (strip_prefix word s) eqn:E; [|discriminate].
  intros [= _ <-]. now apply strip_prefix_le in E.
Qed.

(** The three parsers consume: what is left is no longer than the input. *)
Lemma parse_rest_le (fuel : nat) :
  (forall s v rest, parse_value fuel s = Parsed v rest -> (len rest <= len s)%nat)
  /\ (forall s l rest, parse_elements fuel s = Parsed l rest -> (len rest <= len s)%nat)
  /\ (forall s m rest, parse_members fuel s = Parsed m rest -> (len rest <= len s)%nat).
Proof.
  induction fuel as [|f (IHv & IHe & IHm)]; [repeat split; discriminate|].
  repeat split.
  - intros s v rest H. simpl in H.
    destruct (skip_ws s) as [|c r] eqn:Es; [discriminate|].
    apply skip_ws_cons in Es as Ls.
    destruct (c =? 34).
    { destruct (lex_string r) as [[str rest']|] eqn:E; [|discriminate].
      simpl in H. injection H as _ <-.
      apply (lex_string_lt (len r)) in E; lia. }
    destruct (c =? 91).
    { destruct (skip_ws r) as [|c' r'] eqn:Er; [discriminate|].
      apply skip_ws_cons in Er.
      destruct (c' =? 93); [injection H as _ <-; lia|].
      destruct (parse_elements f r) as [l rest'| |] eqn:E; try discriminate.
      simpl in H. injection H as _ <-. apply IHe in E. lia. }
    destruct (c =? 123).
    { destruct (skip_ws r) as [|c' r'] eqn:Er; [discriminate|].
      apply skip_ws_cons in Er.
      destruct (c' =? 125); [injection H as _ <-; lia|].
      destruct (parse_members f r) as [l rest'| |] eqn:E; try discriminate.
      simpl in H. injection H as _ <-. apply IHm in E. lia. }
    destruct (c =? 116); [apply lex_literal_le in H; lia|].
    destruct (c =? 102); [apply lex_literal_le in H; lia|].
    destruct (c =? 110); [apply lex_literal_le in H; lia|].
    destruct (lex_number (c :: r)) as [[lexeme rest']|] eqn:E; [|discriminate].
    simpl in H. injection H as _ <-. apply lex_number_le in E. simpl in E. lia.
  - intros s l rest H. simpl in H.
    destruct (parse_value f s) as [v rest0| |] eqn:E; try discriminate.
    apply IHv in E. simpl in H.
    destruct (skip_ws rest0) as [|c r] eqn:Es; [discriminate|].
    apply skip_ws_cons in Es.
    destruct (c =? 44).
    { destruct (parse_elements f r) as [l' rest'| |] eqn:E'; try discriminate.
      simpl in H. injection H as _ <-. apply IHe in E'. lia. }
    destruct (c =? 93); [|discriminate]. injection H as _ <-. lia.
  - intros s m rest H. simpl in H.
    destruct (skip_ws s) as [|q r0] eqn:Es; [discriminate|].
    apply skip_ws_cons in Es.
    destruct (q =? 34); [|discriminate].
    destruct (lex_string r0) as [[key rest0]|] eqn:Ek; [|discriminate].
    apply (lex_string_lt (len r0)) in Ek; [|lia]. simpl in H.
    destruct (skip_ws rest0) as [|colon r1] eqn:Ec; [discriminate|].
    apply skip_ws_cons in Ec.
    destruct (colon =? 58); [|discriminate].
    destruct (parse_value f r1) as [v rest1| |] eqn:E; try discriminate.
    apply IHv in E. simpl in H.
    destruct (skip_ws rest1) as [|c r] eqn:Er; [discriminate|].
    apply skip_ws_cons in Er.
    destruct (c =? 44).
    { destruct (parse_members f r) as [m' rest'| |] eqn:E'; try discriminate.
      simpl in H. injection H as _ <-. apply IHm in E'. lia. }
    destruct (c =? 125); [|discriminate]. injection H as _ <-. lia.
Qed.

(** Two units of fuel for each code unit are enough. *)
Lemma parse_fuel (fuel : nat) :
  (forall s, (2 * len s < fuel)%nat -> parse_value fuel s <> OutOfFuel)
  /\ (forall s, (2 * len s + 1 < fuel)%nat -> parse_elements fuel s <> OutOfFuel)
  /\ (forall s, (2 * len s + 1 < fuel)%nat -> parse_members fuel s <> OutOfFuel).
Proof.
  induction fuel as [|f (IHv & IHe & IHm)]; [repeat split; intros; lia|].
  repeat split.
  - intros s Hf. simpl.
    destruct (skip_ws s) as [|c r] eqn:Es; [discriminate|].
    apply skip_ws_cons in Es as Ls.
    destruct (c =? 34).
    { destruct (lex_string r) as [[str rest']|]; discriminate. }
    destruct (c =? 91).
    { destruct (skip_ws r) as [|c' r'] eqn:Er; [discriminate|].
      destruct (c' =? 93); [discriminate|].
      specialize (IHe r ltac:(lia)).
      destruct (parse_elements f r); [discriminate|discriminate|contradiction]. }
    destruct (c =? 123).
    { destruct (skip_ws r) as [|c' r'] eqn:Er; [discriminate|].
      destruct (c' =? 125); [discriminate|].
      specialize (IHm r ltac:(lia)).
      destruct (parse_members f r); [discriminate|discriminate|contradiction]. }
    unfold lex_literal.
    destruct (c =? 116); [destruct (strip_prefix _ r); discriminate|].
    destruct (c =? 102); [destruct (strip_prefix _ r); discriminate|].
    destruct (c =? 110); [destruct (strip_prefix _ r); discriminate|].
    destruct (lex_number (c :: r)) as [[lexeme rest']|]; discriminate.
  - intros s Hf. simpl.
    specialize (IHv s ltac:(lia)).
    destruct (parse_value f s) as [v rest0| |] eqn:E;
      [|discriminate|contradiction].
    apply (proj1 (parse_rest_le f)) in E. simpl.
    destruct (skip_ws rest0) as [|c r] eqn:Es; [discriminate|].
    apply skip_ws_cons in Es.
    destruct (c =? 44).
    { specialize (IHe r ltac:(lia)).
      destruct (parse_elements f r); [discriminate|discriminate|contradiction]. }
    destruct (c =? 93); discriminate.
  - intros s Hf. simpl.
    destruct (skip_ws s) as [|q r0] eqn:Es; [discriminate|].
    apply skip_ws_cons in Es.
    destruct (q =? 34); [|discriminate].
    destruct (lex_string r0) as [[key rest0]|] eqn:Ek; [|discriminate].
    apply (lex_string_lt (len r0)) in Ek; [|lia]. simpl.
    destruct (skip_ws rest0) as [|colon r1] eqn:Ec; [discriminate|].
    apply skip_ws_cons in Ec.
    destruct (colon =? 58); [|discriminate].
    specialize (IHv r1 ltac:(lia)).
    destruct (parse_value f r1) as [v rest1| |] eqn:E;
      [|discriminate|contradiction].
    apply (proj1 (parse_rest_le f)) in E. simpl.
    destruct (skip_ws rest1) as [|c r] eqn:Er; [discriminate|].
    apply skip_ws_cons in Er.
    destruct (c =? 44).
    { specialize (IHm r ltac:(lia)).
      destruct (parse_members f r); [discriminate|discriminate|contradiction]. }
    destruct (c =? 125); discriminate.
Qed.

Lemma parse_value_fuel (text : jsstring) :
  parse_value (fuel_for text) text <> OutOfFuel.
Proof. apply (proj1 (parse_fuel (fuel_for text))). unfold fuel_for. lia. Qed.

(* ================================================================== *)
(** * The normalizer against the algorithm of the specification *)
(* ================================================================== *)

Section NormalizerFacts.

Variable Number_toString : jsstring -> jsstring.
Variable join_depth : nat.
Variable Number_isZero : jsstring -> bool.

Local Abbreviation assistant := (marked (u "role") (u "assistant")).
Local Abbreviation textual := (marked (u "type") (u "text")).

(** Reading a marker throws on [null] and compares otherwise. *)
Lemma isAssistant_marked (m : json) :
  isAssistant m = if notNull m then Normal (assistant m) else Throw.
Proof. now destruct m. Qed.

Lemma isText_marked (c : json) :
  isText c = if notNull c then Normal (textual c) else Throw.
Proof. now destruct c. Qed.

Lemma findLast_down_spec (r : list json) :
  findLast_down isAssistant r =
  if forallb notNull (until_such assistant r)
  then Normal (find assistant r) else Throw.
Proof.
  induction r as [|x r IH]; [reflexivity|].
  cbn [findLast_down until_such find]. rewrite isAssistant_marked.
  destruct x; cbn [notNull cbind]; try (cbn; exact IH); [reflexivity|].
  destruct (assistant (JObj members)); [reflexivity|].
  cbn [forallb notNull andb]. exact IH.
Qed.

Lemma forallb_rev {A : Type} (p : A -> bool) (l : list A) :
  forallb p (rev l) = forallb p l.
Proof.
  induction l as [|x l IH]; [reflexivity|].
  simpl. rewrite forallb_app, IH. simpl.
  rewrite andb_true_r. apply andb_comm.
Qed.

Lemma findLast_spec (msgs : list json) :
  findLast isAssistant msgs =
  if forallb notNull (after_last_such assistant msgs)
  then Normal (last_such assistant msgs) else Throw.
Proof.
  unfold findLast, after_last_such, last_such.
  rewrite forallb_rev. apply findLast_down_spec.
Qed.

Lemma filter_c_spec (cs : list json) :
  filter_c isText cs =
  if forallb notNull cs then Normal (filter textual cs) else Throw.
Proof.
  induction cs as [|c cs IH]; [reflexivity|].
  cbn [filter_c forallb filter]. rewrite isText_marked, IH.
  destruct (notNull c); [|reflexivity]. cbn [cbind andb].
  destruct (forallb notNull cs); reflexivity.
Qed.

Lemma map_text_spec (l : list json) :
  Forall (fun c => textual c = true) l ->
  map_c textField l = Normal (map text_of l).
Proof.
  induction 1 as [|c l Hc _ IH]; [reflexivity|].
  cbn [map_c map]. rewrite IH.
  destruct c; try discriminate. reflexivity.
Qed.

Lemma filter_textual (cs : list json) :
  Forall (fun c => textual c = true) (filter textual cs).
Proof. apply Forall_forall. intros c Hc. now apply filter_In in Hc. Qed.

(** The source computes the algorithm of the specification on the texts
    whose visited entries are not [null], and gives the raw text on the
    others. *)
Lemma summaryText_spec (text : jsstring) :
  summaryText Number_toString join_depth Number_isZero text =
  if null_free text then normalize_spec Number_toString join_depth text else text.
Proof.
  unfold summaryText, try_summary, null_free, normalize_spec.
  destruct (JSON_parse text) as [j|]; [|reflexivity].
  destruct j as [| | | | |members]; try reflexivity.
  cbn [Get cbind messages_of].
  destruct (lookup (u "messages") members) as [[| | | |msgs|]|];
    try (cbn [isArray]; rewrite ?andb_false_r; reflexivity).
  cbn [ToBoolean isArray andb elementsOf]. rewrite findLast_spec.
  destruct (forallb notNull (after_last_such assistant msgs));
    [|reflexivity].
  cbn [cbind andb].
  destruct (last_such assistant msgs) as [a|] eqn:Ea; [|reflexivity].
  apply find_some in Ea as [_ Ha].
  destruct a as [| | | | |amembers]; try discriminate.
  cbn [Get cbind content_of].
  destruct (lookup (u "content") amembers) as [[| | | |cs|]|];
    try (match goal with
         | |- context [ToBoolean ?z ?v] => now destruct (ToBoolean z v)
         end).
  cbn [ToBoolean]. rewrite filter_c_spec.
  destruct (forallb notNull cs); [|reflexivity].
  cbn [cbind]. rewrite (map_text_spec _ (filter_textual cs)).
  reflexivity.
Qed.

(** A summary that is empty on a text that is not comes from a content
    sequence. *)
Lemma empty_summary_from_assistant (text : jsstring) :
  text <> [] ->
  summaryText Number_toString join_depth Number_isZero text = [] ->
  exists cs,
    from_assistant text cs
    /\ Array_join Number_toString join_depth [10] (map text_of (filter textual cs))
       = Normal [].
Proof.
  intros Hne. rewrite summaryText_spec.
  destruct (null_free text); [|contradiction].
  unfold normalize_spec, from_assistant.
  destruct (JSON_parse text) as [j|] eqn:Ej; [|contradiction].
  destruct (messages_of j) as [msgs|] eqn:Em; [|contradiction].
  destruct (last_such assistant msgs) as [a|] eqn:Ea; [|contradiction].
  destruct (content_of a) as [cs|] eqn:Ec; [|contradiction].
  unfold joined_texts.
  destruct (Array_join Number_toString join_depth [10] _) as [s|] eqn:E; [|contradiction].
  intros ->. exists cs. split; [|exact E]. now exists j, msgs, a.
Qed.

End NormalizerFacts.

(** C4, as amended.  The normalizer is total: the parse of every text ends
    within its fuel, and nothing it raises escapes.  On a text in which no
    entry the source visits is [null] it gives the summary of the
    specification: the texts of the entries of kind text of the content
    sequence of the last assistant message, joined by line feeds, and the raw
    text when the text does not parse, has no messages sequence, has no
    assistant message with a content sequence, or has a text that cannot be
    printed (an object with a member [toString], or arrays nested deeper than
    the stack of the engine has room for).  On a text with such a [null]
    entry it gives the raw text. *)
Theorem normalize_follows_spec
  (Number_toString : jsstring -> jsstring) (join_depth : nat) (Number_isZero : jsstring -> bool)
  (text : jsstring) :
  parse_value (fuel_for text) text <> OutOfFuel
  /\ (null_free text = true ->
      summaryText Number_toString join_depth Number_isZero text
      = normalize_spec Number_toString join_depth text)
  /\ (null_free text = false ->
      summaryText Number_toString join_depth Number_isZero text = text).
Proof.
  split; [apply parse_value_fuel|].
  rewrite summaryText_spec. split; now intros ->.
Qed.

(** C4, at the example of the specification, at a text that is no JSON,
    at a content sequence with a [null] entry, and at a text that is an array
    nested deeper than the stack has room for. *)
Lemma normalize_follows_spec_witness :
  summaryText number_plain depth_plain iszero_plain red_circle = u "A red circle."
  /\ summaryText number_plain depth_plain iszero_plain (u "plain string, not json")
     = u "plain string, not json"
  /\ summaryText number_plain depth_plain iszero_plain null_entry = null_entry
  /\ summaryText number_plain 2 iszero_plain nested_text = nested_text
  /\ summaryText number_plain 3 iszero_plain nested_text = u "1,2".
Proof.
  refine (conj _ (conj _ (conj _ (conj _ _)))).
  - exact (proj1 (proj2 (normalize_follows_spec number_plain depth_plain iszero_plain
                           red_circle)) eq_refl).
  - exact (proj1 (proj2 (normalize_follows_spec number_plain depth_plain iszero_plain
                           (u "plain string, not json"))) eq_refl).
  - exact (proj2 (proj2 (normalize_follows_spec number_plain depth_plain iszero_plain
                           null_entry)) eq_refl).
  - exact (proj1 (proj2 (normalize_follows_spec number_plain 2 iszero_plain
                           nested_text)) eq_refl).
  - exact (proj1 (proj2 (normalize_follows_spec number_plain 3 iszero_plain
                           nested_text)) eq_refl).
Defined.

(** C4, as stated, fails at a content sequence that holds a [null]: the
    algorithm of the specification gives the one text entry, the source
    gives the raw text. *)
Lemma normalize_null_entry_counterexample :
  normalize_spec number_plain depth_plain null_entry = u "hi"
  /\ summaryText number_plain depth_plain iszero_plain null_entry = null_entry
  /\ null_entry <> u "hi".
Proof. repeat split. discriminate. Qed.

(* ================================================================== *)
(** * The listeners of [execute] over a trace *)
(* ================================================================== *)

Module ToolFacts.
Import Tool.

Lemma run_app (st : state) (a b : list event) :
  run st (a ++ b) = run (run st a) b.
Proof. apply fold_left_app. Qed.

Lemma run_cons (st : state) (e : event) (r : list event) :
  run st (e :: r) = run (step st e) r.
Proof. reflexivity. Qed.

(** Output events only fill the buffers. *)
Lemma run_data (pre : list event) :
  forallb isData pre = true ->
  forall st,
    run st pre =
    {| stdout := stdout st ++ stdout_of pre; stderr := stderr st ++ stderr_of pre;
       promise := promise st; onAbort := onAbort st; signal := signal st;
       kills := kills st |}.
Proof.
  induction pre as [|e pre IH]; intros H st.
  - simpl. rewrite !app_nil_r. now destruct st.
  - simpl in H. apply andb_true_iff in H as [He H].
    destruct e; try discriminate; simpl; rewrite (IH H); simpl;
      now rewrite <- ?app_assoc.
Qed.

Lemma settle_settled (s : settlement) (st : state) (x : settlement) :
  promise st = Some x -> settle s st = st.
Proof. unfold settle. now intros ->. Qed.

(** A settled promise keeps its value. *)
Lemma step_settled (st : state) (e : event) (x : settlement) :
  promise st = Some x -> promise (step st e) = Some x.
Proof.
  intros H. destruct e as [d|d|m|code|]; simpl; try assumption.
  - now rewrite (settle_settled _ _ _ H).
  - destruct (nonZero code); now rewrite (settle_settled _ _ _ H).
  - destruct (signal st) as [[|]|]; try assumption.
    destruct (onAbort st); [|assumption].
    unfold settle. simpl. now rewrite H.
Qed.

Lemma run_settled (trace : list event) :
  forall st x, promise st = Some x -> promise (run st trace) = Some x.
Proof.
  induction trace as [|e trace IH]; intros st x H; [assumption|].
  simpl. apply IH. now apply step_settled.
Qed.

Lemma signal_settle (s : settlement) (st : state) :
  signal (settle s st) = signal st /\ kills (settle s st) = kills st
  /\ onAbort (settle s st) = onAbort st.
Proof. unfold settle. now destruct (promise st). Qed.

(** An aborted signal stays aborted, and nothing more is killed. *)
Lemma step_aborted (st : state) (e : event) :
  signal st = Some true ->
  signal (step st e) = Some true /\ kills (step st e) = kills st.
Proof.
  intros H. destruct e as [d|d|m|code|]; simpl; try (now split).
  - destruct (signal_settle (Rejected m) st) as (-> & -> & _). now split.
  - destruct (nonZero code);
      match goal with
      | |- context [settle ?s st] =>
          destruct (signal_settle s st) as (-> & -> & _)
      end; now split.
  - rewrite H. now split.
Qed.

Lemma run_aborted (trace : list event) :
  forall st, signal st = Some true ->
             signal (run st trace) = Some true /\ kills (run st trace) = kills st.
Proof.
  induction trace as [|e trace IH]; intros st H; [now split|].
  simpl. destruct (step_aborted st e H) as [Hs Hk].
  destruct (IH _ Hs) as [Hs' Hk']. split; congruence.
Qed.

(** Without an abort event the signal is what it was. *)
Lemma step_quiet (st : state) (e : event) :
  isAbort e = false -> signal (step st e) = signal st.
Proof.
  destruct e as [d|d|m|code|]; simpl; try reflexivity; try discriminate;
    intros _.
  - apply signal_settle.
  - destruct (nonZero code); apply signal_settle.
Qed.

Lemma run_quiet (trace : list event) :
  forallb (fun e => negb (isAbort e)) trace = true ->
  forall st, signal (run st trace) = signal st.
Proof.
  induction trace as [|e trace IH]; intros H st; [reflexivity|].
  simpl in H. apply andb_true_iff in H as [He H].
  simpl. rewrite (IH H). apply step_quiet. now destruct (isAbort e).
Qed.

Lemma failed_not_aborted (code : option Z) (err : jsstring) :
  eqb (failed_message code err) aborted_message = false.
Proof. reflexivity. Qed.

Lemma trigger_spec (ctx : Context) : isGlm4_7 ctx = true <-> trigger ctx.
Proof.
  unfold isGlm4_7, trigger. destruct (model ctx) as [id|].
  - rewrite orb_true_iff, !eqb_eq. split; intros [H|H]; try (left; congruence);
      right; congruence.
  - split; [discriminate|]. intros [H|H]; discriminate.
Qed.

Lemma image_spec (path : jsstring) :
  falsy (detectImageMimeType path) = false <->
  exists mimeType, classify path = Image mimeType.
Proof.
  rewrite detect_not_empty. unfold classify.
  destruct (detectImageMimeType path) as [m|]; split;
    try discriminate; try reflexivity.
  - intros _. now exists m.
  - intros [m H]. discriminate.
Qed.

End ToolFacts.

(* ================================================================== *)
(** * The read router *)
(* ================================================================== *)

Section Router.

Variable resolve : jsstring -> jsstring -> jsstring.
Variable localRead_execute :
  jsstring -> Tool.ReadParams -> option bool -> Tool.outcome.
Variable Number_toString : jsstring -> jsstring.
Variable join_depth : nat.
Variable Number_isZero : jsstring -> bool.

Local Abbreviation execute :=
  (Tool.execute resolve localRead_execute Number_toString join_depth Number_isZero).

Lemma invoke_success (sig : option bool) (trace : list event) (raw : jsstring) :
  Tool.invoke sig trace = Some (Tool.Success raw) ->
  Tool.awaited (Tool.run (Tool.init sig) trace) = Some (Tool.Got raw).
Proof.
  unfold Tool.invoke.
  destruct (Tool.awaited _) as [[t|m]|]; simpl; try discriminate.
  - now intros [= ->].
  - destruct (eqb m Tool.aborted_message); discriminate.
Qed.

Lemma invoke_failure (sig : option bool) (trace : list event)
  (o : Tool.DelegationOutcome) :
  Tool.invoke sig trace = Some o ->
  (forall raw, o <> Tool.Success raw) ->
  exists m, Tool.awaited (Tool.run (Tool.init sig) trace) = Some (Tool.Raised m)
            /\ o = Tool.outcome_of (Tool.Raised m).
Proof.
  unfold Tool.invoke.
  destruct (Tool.awaited _) as [[t|m]|]; simpl; try discriminate.
  - intros [= <-] H. now destruct (H t).
  - intros [= <-] _. now exists m.
Qed.

Lemma execute_delegated (toolCallId : jsstring) (params : Tool.ReadParams)
  (sig : option bool) (onUpdate : bool) (ctx : Tool.Context)
  (trace : list event) :
  Tool.trigger ctx ->
  (exists m, classify (resolve (Tool.cwd ctx) (Tool.path params)) = Image m) ->
  execute toolCallId params sig onUpdate ctx trace =
  let absolutePath := resolve (Tool.cwd ctx) (Tool.path params) in
  let st := Tool.run (Tool.init sig) trace in
  let note (l : list Tool.ToolResult) := if onUpdate then l else [] in
  match Tool.awaited st with
  | None =>
      {| Tool.result := Tool.Pending; Tool.updates := note [Tool.progress];
         Tool.spawned := [spawn_args absolutePath]; Tool.killed := Tool.kills st |}
  | Some (Tool.Got text) =>
      let r := Tool.readResult (summaryText Number_toString join_depth Number_isZero text) in
      {| Tool.result := Tool.Returned r; Tool.updates := note [Tool.progress; r];
         Tool.spawned := [spawn_args absolutePath]; Tool.killed := Tool.kills st |}
  | Some (Tool.Raised m) =>
      {| Tool.result :=
           Tool.Threw {| Tool.message := Tool.errorMsg m; Tool.isToolError := true |};
         Tool.updates := note [Tool.progress];
         Tool.spawned := [spawn_args absolutePath]; Tool.killed := Tool.kills st |}
  end.
Proof.
  intros Ht Hi. apply ToolFacts.trigger_spec in Ht.
  apply ToolFacts.image_spec in Hi.
  unfold Tool.execute. now rewrite Ht, Hi.
Qed.

Lemma execute_passthrough (toolCallId : jsstring) (params : Tool.ReadParams)
  (sig : option bool) (onUpdate : bool) (ctx : Tool.Context)
  (trace : list event) :
  ~ (Tool.trigger ctx
     /\ exists m, classify (resolve (Tool.cwd ctx) (Tool.path params)) = Image m) ->
  execute toolCallId params sig onUpdate ctx trace =
  Tool.passthrough localRead_execute toolCallId params sig.
Proof.
  intros H. unfold Tool.execute.
  destruct (Tool.isGlm4_7 ctx) eqn:Et; [|reflexivity].
  destruct (falsy (detectImageMimeType _)) eqn:Ei; [reflexivity|].
  exfalso. apply H. split.
  - now apply ToolFacts.trigger_spec.
  - now apply ToolFacts.image_spec.
Qed.

(** C1.  [execute] spawns the analysis process exactly when the active
    model is one of the two triggers and the resolved path classifies as an
    image; in every other case it is the host's read, with its result as it
    is, and nothing is spawned. *)
Theorem route_delegates_iff (toolCallId : jsstring) (params : Tool.ReadParams)
  (sig : option bool) (onUpdate : bool) (ctx : Tool.Context)
  (trace : list event) :
  let absolutePath := resolve (Tool.cwd ctx) (Tool.path params) in
  let r := execute toolCallId params sig onUpdate ctx trace in
  (Tool.spawned r = [spawn_args absolutePath]
   <-> Tool.trigger ctx /\ exists m, classify absolutePath = Image m)
  /\ (~ (Tool.trigger ctx /\ exists m, classify absolutePath = Image m) ->
      Tool.spawned r = []
      /\ Tool.result r = localRead_execute toolCallId params sig
      /\ r = Tool.passthrough localRead_execute toolCallId params sig).
Proof.
  cbv zeta. split.
  - split.
    + intros Hs.
      destruct (Tool.isGlm4_7 ctx) eqn:Et.
      * destruct (falsy (detectImageMimeType
                           (resolve (Tool.cwd ctx) (Tool.path params)))) eqn:Ei.
        -- unfold Tool.execute in Hs. rewrite Et, Ei in Hs. discriminate.
        -- split; [now apply ToolFacts.trigger_spec|now apply ToolFacts.image_spec].
      * unfold Tool.execute in Hs. rewrite Et in Hs. discriminate.
    + intros [Ht Hi]. rewrite (execute_delegated _ _ _ _ _ _ Ht Hi). cbv zeta.
      now destruct (Tool.awaited _) as [[t|m]|].
  - intros H. rewrite (execute_passthrough _ _ _ _ _ _ H). now repeat split.
Qed.

(** C2.  When the delegation ends in a process error or a cancellation,
    [execute] throws an error marked as a tool error, whose message carries
    the reason and closes on the common causes; it returns no result, sends
    no summary to [onUpdate], and does not fall back to the host's read. *)
Theorem failed_delegation_throws (toolCallId : jsstring)
  (params : Tool.ReadParams) (sig : option bool) (onUpdate : bool)
  (ctx : Tool.Context) (trace : list event) (o : Tool.DelegationOutcome) :
  Tool.trigger ctx ->
  (exists m, classify (resolve (Tool.cwd ctx) (Tool.path params)) = Image m) ->
  Tool.invoke sig trace = Some o ->
  (o = Tool.Cancelled \/ exists m, o = Tool.ProcessError m) ->
  let r := execute toolCallId params sig onUpdate ctx trace in
  exists reason,
    (o = Tool.ProcessError reason
     \/ (o = Tool.Cancelled /\ reason = Tool.aborted_message))
    /\ Tool.result r =
       Tool.Threw {| Tool.message := Tool.errorMsg reason; Tool.isToolError := true |}
    /\ endsWith (Tool.errorMsg reason) Tool.common_causes
    /\ occursIn (u "may not be supported") (Tool.errorMsg reason)
    /\ occursIn (u "connection issue") (Tool.errorMsg reason)
    /\ Tool.updates r = (if onUpdate then [Tool.progress] else []).
Proof.
  intros Ht Hi Ho Hfail r.
  destruct (invoke_failure sig trace o Ho) as (m & Ha & Hm).
  { intros raw E. destruct Hfail as [->|[x ->]]; discriminate. }
  exists m. subst r. rewrite (execute_delegated _ _ _ _ _ _ Ht Hi). cbv zeta.
  rewrite Ha. simpl. repeat split.
  - simpl in Hm. destruct (eqb m Tool.aborted_message) eqn:E.
    + right. apply eqb_eq in E. now split.
    + now left.
  - exists (u "Image analysis failed with glm-4.6v: " ++ m).
    unfold Tool.errorMsg. now rewrite app_assoc.
  - exists (u "Image analysis failed with glm-4.6v: " ++ m ++ u ". The image "),
      (u " (e.g., animated GIFs) or there was a connection issue.").
    unfold Tool.errorMsg. now rewrite <- !app_assoc.
  - exists (u "Image analysis failed with glm-4.6v: " ++ m
            ++ u ". The image may not be supported (e.g., animated GIFs) or there was a "),
      (u ".").
    unfold Tool.errorMsg. now rewrite <- !app_assoc.
Qed.

(** The example of the specification normalizes to its one text. *)
Lemma red_circle_summary :
  summaryText Number_toString join_depth Number_isZero red_circle = u "A red circle.".
Proof. rewrite summaryText_spec. reflexivity. Qed.

(** C6.  When the delegation succeeds, [execute] returns a result whose one
    content block is the text [[Image analyzed with glm-4.6v]], two line
    feeds and the normalized summary, and whose details record glm-4.6v as
    the summary model; on the raw text of the specification's example this
    text ends in [A red circle.] *)
Theorem success_result (toolCallId : jsstring) (params : Tool.ReadParams)
  (sig : option bool) (onUpdate : bool) (ctx : Tool.Context)
  (trace : list event) (raw : jsstring) :
  Tool.trigger ctx ->
  (exists m, classify (resolve (Tool.cwd ctx) (Tool.path params)) = Image m) ->
  Tool.invoke sig trace = Some (Tool.Success raw) ->
  let r := execute toolCallId params sig onUpdate ctx trace in
  let text := u "[Image analyzed with glm-4.6v]" ++ [10; 10]
              ++ summaryText Number_toString join_depth Number_isZero raw in
  Tool.result r =
    Tool.Returned {| Tool.content := [Tool.TextContent text];
                     Tool.details := [(u "summaryModel", JStr (u "glm-4.6v"))] |}
  /\ (raw = red_circle -> endsWith text (u "A red circle.")).
Proof.
  intros Ht Hi Ho r text. subst r text.
  rewrite (execute_delegated _ _ _ _ _ _ Ht Hi). cbv zeta.
  rewrite (invoke_success _ _ _ Ho). split; [reflexivity|].
  intros ->. rewrite red_circle_summary.
  now exists (u "[Image analyzed with glm-4.6v]" ++ [10; 10]).
Qed.

End Router.

(* ================================================================== *)
(** * The delegation invoker over a trace *)
(* ================================================================== *)

Lemma run_after_data (sig : option bool) (pre : list event) :
  forallb isData pre = true ->
  Tool.run (Tool.init sig) pre =
  {| Tool.stdout := stdout_of pre; Tool.stderr := stderr_of pre;
     Tool.promise := None;
     Tool.onAbort := match sig with Some _ => true | None => false end;
     Tool.signal := sig; Tool.kills := 0 |}.
Proof. intros H. now rewrite (ToolFacts.run_data pre H). Qed.

Lemma occursIn_middle (a x b : jsstring) : occursIn x (a ++ x ++ b).
Proof. now exists a, b. Qed.

Lemma invoke_nonzero (sig : option bool) (pre rest : list event)
  (code : option Z) :
  forallb isData pre = true ->
  nonZero code = true ->
  Tool.awaited (Tool.run (Tool.init sig) (pre ++ Close code :: rest))
  = Some (Tool.Raised (Tool.failed_message code (stderr_of pre))).
Proof.
  intros Hd Hc. rewrite ToolFacts.run_app, (run_after_data sig pre Hd).
  rewrite ToolFacts.run_cons; cbn [Tool.step]. rewrite Hc.
  cbn [Tool.settle Tool.promise Tool.stderr Tool.stdout Tool.signal Tool.kills].
  unfold Tool.awaited.
  now rewrite (ToolFacts.run_settled rest _
                 (Rejected (Tool.failed_message code (stderr_of pre))))
    by reflexivity.
Qed.

Section Exit.

Variable resolve : jsstring -> jsstring -> jsstring.
Variable localRead_execute :
  jsstring -> Tool.ReadParams -> option bool -> Tool.outcome.
Variable Number_toString : jsstring -> jsstring.
Variable join_depth : nat.
Variable Number_isZero : jsstring -> bool.

(** C7, as amended.  When only output precedes the close event (no earlier
    process error, no earlier cancellation): a code other than zero gives a
    process error whose message holds the code and the standard error
    gathered so far, and [execute] throws it as a tool error; code zero, with
    a signal that is never activated, gives success with the trimmed
    standard output gathered so far. *)
Theorem exit_code_outcome (sig : option bool) (pre rest : list event)
  (code : option Z) :
  forallb isData pre = true ->
  let trace := pre ++ Close code :: rest in
  let msg := Tool.failed_message code (stderr_of pre) in
  (nonZero code = true ->
     Tool.invoke sig trace = Some (Tool.ProcessError msg)
     /\ occursIn (codeString code) msg
     /\ occursIn (stderr_of pre) msg
     /\ forall toolCallId params onUpdate ctx,
          Tool.trigger ctx ->
          (exists m, classify (resolve (Tool.cwd ctx) (Tool.path params)) = Image m) ->
          Tool.result (Tool.execute resolve localRead_execute Number_toString join_depth
                         Number_isZero toolCallId params sig onUpdate ctx trace)
          = Tool.Threw {| Tool.message := Tool.errorMsg msg;
                          Tool.isToolError := true |})
  /\ (code = Some 0%Z ->
      sig <> Some true ->
      forallb (fun e => negb (isAbort e)) rest = true ->
      Tool.invoke sig trace = Some (Tool.Success (trim (stdout_of pre)))).
Proof.
  intros Hd trace msg. subst trace msg. split.
  - intros Hc. pose proof (invoke_nonzero sig pre rest code Hd Hc) as Ha.
    repeat split.
    + unfold Tool.invoke. rewrite Ha. cbn [option_map Tool.outcome_of].
      now rewrite ToolFacts.failed_not_aborted.
    + unfold Tool.failed_message. apply occursIn_middle.
    + exists (u "pi subprocess failed (" ++ codeString code ++ u "): "), [].
      unfold Tool.failed_message. now rewrite app_nil_r, <- !app_assoc.
    + intros toolCallId params onUpdate ctx Ht Hi.
      rewrite (execute_delegated _ _ _ _ _ _ _ _ _ _ _ Ht Hi). cbv zeta.
      now rewrite Ha.
  - intros -> Hs Hq. unfold Tool.invoke, Tool.awaited.
    rewrite ToolFacts.run_app, (run_after_data sig pre Hd).
    rewrite ToolFacts.run_cons; cbn [Tool.step nonZero Z.eqb negb].
    cbn [Tool.settle Tool.promise Tool.stderr Tool.stdout Tool.signal Tool.kills].
    rewrite (ToolFacts.run_settled rest _ (Resolved (trim (stdout_of pre))))
      by reflexivity.
    unfold Tool.aborted. rewrite (ToolFacts.run_quiet rest Hq). simpl.
    destruct sig as [[|]|]; [contradiction| |]; reflexivity.
Qed.

End Exit.

(** C3, as amended.  When the signal is activated while the invocation is
    pending (only output came before), the child is killed, exactly once,
    and the outcome is a cancellation, whatever output was buffered and
    whatever follows; when the process closes with code zero and the signal
    is activated right after, before execution resumes, the outcome is a
    cancellation as well; and with a signal that is aborted when execution
    resumes the outcome is never a success. *)
Theorem cancellation_wins :
  (forall pre rest,
      forallb isData pre = true ->
      let trace := pre ++ Abort :: rest in
      Tool.invoke (Some false) trace = Some Tool.Cancelled
      /\ Tool.kills (Tool.run (Tool.init (Some false)) trace) = 1%nat)
  /\ (forall pre rest,
      forallb isData pre = true ->
      Tool.invoke (Some false) (pre ++ Close (Some 0%Z) :: Abort :: rest)
      = Some Tool.Cancelled)
  /\ (forall sig trace raw,
      Tool.aborted (Tool.run (Tool.init sig) trace) = true ->
      Tool.invoke sig trace <> Some (Tool.Success raw)).
Proof.
  repeat split.
  - unfold Tool.invoke, Tool.awaited.
    rewrite ToolFacts.run_app, (run_after_data (Some false) pre H).
    rewrite ToolFacts.run_cons; cbn [Tool.step Tool.signal Tool.onAbort].
    cbn [Tool.settle Tool.promise Tool.stderr Tool.stdout Tool.signal Tool.kills].
    now rewrite (ToolFacts.run_settled rest _ (Rejected Tool.aborted_message))
      by reflexivity.
  - rewrite ToolFacts.run_app, (run_after_data (Some false) pre H).
    rewrite ToolFacts.run_cons; cbn [Tool.step Tool.signal Tool.onAbort].
    cbn [Tool.settle Tool.promise Tool.stderr Tool.stdout Tool.signal Tool.kills].
    match goal with
    | |- Tool.kills (Tool.run ?st rest) = _ =>
        now rewrite (proj2 (ToolFacts.run_aborted rest st eq_refl))
    end.
  - intros pre rest H. unfold Tool.invoke, Tool.awaited.
    rewrite ToolFacts.run_app, (run_after_data (Some false) pre H).
    rewrite !ToolFacts.run_cons.
    cbn [Tool.step nonZero Z.eqb negb Tool.settle Tool.promise Tool.stderr
           Tool.stdout Tool.signal Tool.kills Tool.onAbort].
    rewrite (ToolFacts.run_settled rest _ (Resolved (trim (stdout_of pre))))
      by reflexivity.
    unfold Tool.aborted.
    match goal with
    | |- context [Tool.signal (Tool.run ?st rest)] =>
        now rewrite (proj1 (ToolFacts.run_aborted rest st eq_refl))
    end.
  - intros sig trace raw Ha Hi. apply invoke_success in Hi.
    unfold Tool.awaited in Hi. rewrite Ha in Hi.
    destruct (Tool.promise _) as [[t|m]|]; discriminate.
Qed.

(** C8, as amended.  The summary of a successful delegation is empty only
    when its raw text is empty, or when the raw text parses to a record whose
    last assistant message has a content sequence whose text entries join to
    the empty string. *)
Theorem empty_summary_cases
  (Number_toString : jsstring -> jsstring) (join_depth : nat) (Number_isZero : jsstring -> bool)
  (sig : option bool) (trace : list event) (raw : jsstring) :
  Tool.invoke sig trace = Some (Tool.Success raw) ->
  summaryText Number_toString join_depth Number_isZero raw = [] ->
  raw = []
  \/ exists cs,
       from_assistant raw cs
       /\ Array_join Number_toString join_depth [10]
            (map text_of (filter (marked (u "type") (u "text")) cs))
          = Normal [].
Proof.
  intros _ Hs. destruct raw as [|c raw]; [now left|]. right.
  apply (empty_summary_from_assistant Number_toString join_depth Number_isZero);
    [discriminate|assumption].
Qed.

(* ================================================================== *)
(** * The command over a trace *)
(* ================================================================== *)

Section CommandFacts.

Variable resolve : jsstring -> jsstring -> jsstring.
Variable Number_toString : jsstring -> jsstring.
Variable join_depth : nat.
Variable Number_isZero : jsstring -> bool.

Local Abbreviation cstep := (Command.step Number_toString join_depth Number_isZero).
Local Abbreviation crun := (Command.run Number_toString join_depth Number_isZero).
Local Abbreviation handler :=
  (Command.handler resolve Number_toString join_depth Number_isZero).

Lemma crun_cons (st : Command.state) (e : event) (r : list event) :
  crun st (e :: r) = crun (cstep st e) r.
Proof. reflexivity. Qed.

Lemma crun_app (st : Command.state) (a b : list event) :
  crun st (a ++ b) = crun (crun st a) b.
Proof. apply fold_left_app. Qed.

Lemma crun_data (pre : list event) :
  forallb isData pre = true ->
  forall st,
    crun st pre =
    {| Command.stdout := Command.stdout st ++ stdout_of pre;
       Command.stderr := Command.stderr st ++ stderr_of pre;
       Command.done := Command.done st; Command.aborted := Command.aborted st;
       Command.kills := Command.kills st; Command.notified := Command.notified st;
       Command.shown := Command.shown st |}.
Proof.
  induction pre as [|e pre IH]; intros H st.
  - simpl. rewrite !app_nil_r. now destruct st.
  - simpl in H. apply andb_true_iff in H as [He H].
    destruct e; try discriminate; rewrite crun_cons, (IH H); simpl;
      now rewrite <- ?app_assoc.
Qed.

Lemma call_done_done (result x : option jsstring) (st : Command.state) :
  Command.done st = Some x -> Command.call_done result st = st.
Proof. unfold Command.call_done. now intros ->. Qed.

Lemma cstep_done (x : option jsstring) (st : Command.state) (e : event) :
  Command.done st = Some x -> done_in x st (cstep st e).
Proof.
  intros H. unfold done_in.
  destruct e as [d|d|m|code|]; simpl.
  - repeat split; auto. now exists [].
  - repeat split; auto. now exists [].
  - rewrite (call_done_done None x) by exact H. simpl.
    repeat split; auto. now exists [(u "Analysis failed: " ++ m, Command.error)].
  - destruct (nonZero code).
    + rewrite (call_done_done None x) by exact H. simpl. repeat split; auto.
      now exists [(u "Analysis failed: " ++ Command.stderr st, Command.error)].
    + rewrite (call_done_done _ x) by exact H. repeat split; auto. now exists [].
  - destruct (Command.aborted st) eqn:Ea.
    + rewrite (call_done_done None x) by exact H. repeat split; auto.
      now exists [].
    + rewrite (call_done_done None x) by exact H. simpl.
      repeat split; auto; try discriminate. now exists [].
Qed.

Lemma crun_done (x : option jsstring) (trace : list event) :
  forall st, Command.done st = Some x -> done_in x st (crun st trace).
Proof.
  induction trace as [|e trace IH]; intros st H.
  - unfold done_in. simpl. repeat split; auto. now exists [].
  - rewrite crun_cons.
    destruct (cstep_done x st e H) as (Hd & Hs & (m1 & Hn) & Ha).
    destruct (IH _ Hd) as (Hd' & Hs' & (m2 & Hn') & Ha').
    unfold done_in. split; [exact Hd'|]. split; [congruence|].
    split.
    + exists (m2 ++ m1). now rewrite Hn', Hn, app_assoc.
    + intros E. destruct (Ha E) as [E1 E2]. destruct (Ha' E1) as [E3 E4].
      split; congruence.
Qed.

Lemma handler_spawns (args cwd : jsstring) (trace : list event) :
  trim args <> [] ->
  (exists m, classify (resolve cwd (trim args)) = Image m) ->
  handler args true cwd trace =
  let st := crun Command.init trace in
  {| Command.notifications := rev (Command.notified st);
     Command.displayed := rev (Command.shown st);
     Command.spawned := [spawn_args (resolve cwd (trim args))];
     Command.killed := Command.kills st |}.
Proof.
  intros Hne Hi. apply eqb_neq in Hne. apply ToolFacts.image_spec in Hi.
  unfold Command.handler. simpl. now rewrite Hne, Hi.
Qed.

(** C9.  With the interactive surface the command requires: on an
    argument text that is empty (or blank) the command gives the usage error
    and nothing else, and spawns no process; and when the loader is aborted
    while the analysis is in progress (only output came before), the command
    notifies [Cancelled], opens no editor, and kills the child once. *)
Theorem command_usage_and_cancel :
  (forall args cwd trace,
      trim args = [] ->
      handler args true cwd trace =
      {| Command.notifications :=
           [(u "Usage: /analyze-image <path-to-image>", Command.error)];
         Command.displayed := []; Command.spawned := []; Command.killed := 0 |})
  /\ (forall args cwd pre rest,
      trim args <> [] ->
      (exists m, classify (resolve cwd (trim args)) = Image m) ->
      forallb isData pre = true ->
      let r := handler args true cwd (pre ++ Abort :: rest) in
      In (u "Cancelled", Command.info) (Command.notifications r)
      /\ Command.displayed r = []
      /\ Command.killed r = 1%nat).
Proof.
  split.
  - intros args cwd trace H. unfold Command.handler. simpl.
    now rewrite H.
  - intros args cwd pre rest Hne Hi Hd r. subst r.
    rewrite (handler_spawns _ _ _ Hne Hi). cbv zeta.
    rewrite crun_app, (crun_data pre Hd), crun_cons.
    cbn [Command.step Command.init Command.aborted Command.call_done
           Command.done Command.resume Command.notify Command.stdout
           Command.stderr Command.kills Command.notified Command.shown app].
    match goal with
    | |- context [crun ?st rest] =>
        destruct (crun_done None rest st eq_refl) as (_ & Hs & (more & Hn) & Ha)
    end.
    cbn [Command.notifications Command.displayed Command.killed].
    destruct (Ha eq_refl) as [_ Hk]. repeat split.
    + apply -> in_rev. rewrite Hn. apply in_or_app. right. now left.
    + rewrite Hs. reflexivity.
    + exact Hk.
Qed.

(** C10, as amended.  With an interactive surface: when the argument is
    not empty once trimmed and its resolved path does not classify as an
    image, the command gives the error [Not a supported image file] and
    nothing else: no process is spawned and no result is displayed. *)
Theorem command_rejects_non_image (args cwd : jsstring) (trace : list event) :
  trim args <> [] ->
  classify (resolve cwd (trim args)) = NotImage ->
  handler args true cwd trace =
  {| Command.notifications := [(u "Not a supported image file", Command.error)];
     Command.displayed := []; Command.spawned := []; Command.killed := 0 |}.
Proof.
  intros Hne Hc. apply eqb_neq in Hne.
  unfold Command.handler. simpl. rewrite Hne.
  destruct (falsy (detectImageMimeType (resolve cwd (trim args)))) eqn:E;
    [reflexivity|].
  apply ToolFacts.image_spec in E as [m E]. congruence.
Qed.

(** On success the command opens one editor, titled [Image Analysis], on
    the normalized standard output; nothing later opens another. *)
Theorem command_success_displays (args cwd : jsstring) (pre rest : list event) :
  trim args <> [] ->
  (exists m, classify (resolve cwd (trim args)) = Image m) ->
  forallb isData pre = true ->
  Command.displayed (handler args true cwd (pre ++ Close (Some 0%Z) :: rest))
  = [(u "Image Analysis",
      summaryText Number_toString join_depth Number_isZero (stdout_of pre))].
Proof.
  intros Hne Hi Hd. rewrite (handler_spawns _ _ _ Hne Hi). cbv zeta.
  rewrite crun_app, (crun_data pre Hd), crun_cons.
  cbn [Command.step nonZero Z.eqb negb Command.init Command.call_done
         Command.done Command.resume Command.stdout Command.stderr
         Command.kills Command.notified Command.shown Command.aborted app].
  match goal with
  | |- context [crun ?st rest] =>
      destruct (crun_done _ rest st eq_refl) as (_ & Hs & _ & _)
  end.
  cbn [Command.displayed]. now rewrite Hs.
Qed.

(** On a failed process the command notifies the failure with the
    standard error, then [Cancelled], and opens no editor. *)
Theorem command_failure_notifies (args cwd : jsstring) (pre rest : list event)
  (code : option Z) :
  trim args <> [] ->
  (exists m, classify (resolve cwd (trim args)) = Image m) ->
  forallb isData pre = true ->
  nonZero code = true ->
  let r := handler args true cwd (pre ++ Close code :: rest) in
  Command.displayed r = []
  /\ exists more,
       Command.notifications r
       = [(u "Analysis failed: " ++ stderr_of pre, Command.error);
          (u "Cancelled", Command.info)] ++ more.
Proof.
  intros Hne Hi Hd Hc r. subst r. rewrite (handler_spawns _ _ _ Hne Hi). cbv zeta.
  rewrite crun_app, (crun_data pre Hd), crun_cons.
  cbn [Command.step]. rewrite Hc.
  cbn [Command.init Command.call_done Command.notify Command.done
         Command.resume Command.stdout Command.stderr Command.kills
         Command.notified Command.shown Command.aborted app].
  match goal with
  | |- context [crun ?st rest] =>
      destruct (crun_done _ rest st eq_refl) as (_ & Hs & (more & Hn) & _)
  end.
  cbn [Command.displayed Command.notifications]. split.
  - now rewrite Hs.
  - exists (rev more). rewrite Hn, rev_app_distr. reflexivity.
Qed.

End CommandFacts.

(* ================================================================== *)
(** * The theorems at concrete inputs *)
(* ================================================================== *)

(** C1: glm-4.7 reading a PNG spawns the analysis; another model reading
    the same file gets the host's read. *)
Lemma route_delegates_iff_witness :
  Tool.spawned (plain_execute (u "call-1") png_params None false glm_ctx [])
  = [spawn_args (u "/work/shot.png")]
  /\ Tool.result (plain_execute (u "call-1") png_params None false other_ctx [])
     = read_plain (u "call-1") png_params None.
Proof.
  split.
  - apply (proj2 (proj1 (route_delegates_iff resolve_plain read_plain number_plain depth_plain
                           iszero_plain (u "call-1") png_params None false
                           glm_ctx []))).
    split; [left; reflexivity|]. now exists (u "image/png").
  - apply (proj2 (route_delegates_iff resolve_plain read_plain number_plain depth_plain
                    iszero_plain (u "call-1") png_params None false other_ctx [])).
    intros [[H|H] _]; discriminate.
Defined.

(** C2: the failing run ends in a tool error that names the cause. *)
Lemma failed_delegation_throws_witness :
  exists reason,
    (Tool.ProcessError (u "pi subprocess failed (1): model unavailable")
     = Tool.ProcessError reason
     \/ (Tool.ProcessError (u "pi subprocess failed (1): model unavailable")
         = Tool.Cancelled /\ reason = Tool.aborted_message))
    /\ Tool.result (plain_execute (u "call-1") png_params (Some false) true
                      glm_ctx failing_trace)
       = Tool.Threw {| Tool.message := Tool.errorMsg reason;
                       Tool.isToolError := true |}
    /\ endsWith (Tool.errorMsg reason) Tool.common_causes
    /\ occursIn (u "may not be supported") (Tool.errorMsg reason)
    /\ occursIn (u "connection issue") (Tool.errorMsg reason)
    /\ Tool.updates (plain_execute (u "call-1") png_params (Some false) true
                       glm_ctx failing_trace)
       = [Tool.progress].
Proof.
  apply (failed_delegation_throws resolve_plain read_plain number_plain depth_plain
           iszero_plain (u "call-1") png_params (Some false) true glm_ctx
           failing_trace
           (Tool.ProcessError (u "pi subprocess failed (1): model unavailable"))).
  - left; reflexivity.
  - now exists (u "image/png").
  - reflexivity.
  - right. now eexists.
Defined.

(** C6: the run that prints the example returns its text under the
    heading. *)
Lemma success_result_witness :
  Tool.result (plain_execute (u "call-1") png_params (Some false) true
                 glm_ctx success_trace)
  = Tool.Returned
      {| Tool.content :=
           [Tool.TextContent (u "[Image analyzed with glm-4.6v]" ++ [10; 10]
                              ++ u "A red circle.")];
         Tool.details := [(u "summaryModel", JStr (u "glm-4.6v"))] |}.
Proof.
  refine (proj1 (success_result resolve_plain read_plain number_plain depth_plain
                   iszero_plain (u "call-1") png_params (Some false) true
                   glm_ctx success_trace red_circle _ _ _)).
  - left; reflexivity.
  - now exists (u "image/png").
  - reflexivity.
Defined.

(** C7: code 1 with [model unavailable] on the standard error. *)
Lemma exit_code_outcome_witness :
  Tool.invoke (Some false) failing_trace
  = Some (Tool.ProcessError (u "pi subprocess failed (1): model unavailable"))
  /\ Tool.invoke (Some false) success_trace = Some (Tool.Success red_circle).
Proof.
  split.
  - exact (proj1 (proj1 (exit_code_outcome resolve_plain read_plain number_plain depth_plain
                           iszero_plain (Some false)
                           [StderrData (u "model unavailable")] []
                           (Some 1%Z) eq_refl) eq_refl)).
  - refine (proj2 (exit_code_outcome resolve_plain read_plain number_plain depth_plain
                     iszero_plain (Some false)
                     [StdoutData red_circle; StdoutData [10]] []
                     (Some 0%Z) eq_refl) eq_refl _ eq_refl).
    discriminate.
Defined.

(** C7, as stated, fails when a cancellation came first: the process then
    exits with code 1, and the outcome is the cancellation.  It fails as well
    when the process could not be spawned: the close event carries a code
    other than zero, and the message is the one of the error event. *)
Lemma exit_after_cancel_counterexample :
  nonZero (Some 1%Z) = true
  /\ Tool.invoke (Some false) [Abort; Close (Some 1%Z)] = Some Tool.Cancelled
  /\ Tool.awaited (Tool.run (Tool.init (Some false)) [Abort; Close (Some 1%Z)])
     = Some (Tool.Raised (u "Operation aborted"))
  /\ nonZero (Some (-2)%Z) = true
  /\ Tool.invoke None [ChildError (u "spawn pi ENOENT"); Close (Some (-2)%Z)]
     = Some (Tool.ProcessError (u "spawn pi ENOENT")).
Proof. repeat split. Qed.

(** C3: a cancellation after the whole output is buffered. *)
Lemma cancellation_wins_witness :
  Tool.invoke (Some false) [StdoutData red_circle; Abort; Close None]
  = Some Tool.Cancelled
  /\ Tool.kills (Tool.run (Tool.init (Some false))
                   [StdoutData red_circle; Abort; Close None]) = 1%nat.
Proof.
  exact (proj1 cancellation_wins [StdoutData red_circle] [Close None] eq_refl).
Defined.

(** C3, as stated, fails when the process had already failed to start: the
    signal is activated before the close event, and the outcome is the
    process error. *)
Lemma cancel_after_error_counterexample :
  Tool.invoke (Some false)
    [ChildError (u "spawn pi ENOENT"); Abort; Close (Some (-2)%Z)]
  = Some (Tool.ProcessError (u "spawn pi ENOENT"))
  /\ Tool.ProcessError (u "spawn pi ENOENT") <> Tool.Cancelled.
Proof. split; [reflexivity|discriminate]. Qed.

(** C8: the empty summary of a message with no content entries. *)
Lemma empty_summary_cases_witness :
  no_entries = []
  \/ exists cs,
       from_assistant no_entries cs
       /\ Array_join number_plain depth_plain [10]
            (map text_of (filter (marked (u "type") (u "text")) cs))
          = Normal [].
Proof.
  apply (empty_summary_cases number_plain depth_plain iszero_plain None
           [StdoutData no_entries; Close (Some 0%Z)] no_entries);
    reflexivity.
Defined.

(** C8, as stated, fails twice: a process that exits with code zero and no
    output succeeds with an empty summary, and a raw text that is not empty
    can have an empty summary. *)
Lemma empty_summary_counterexample :
  Tool.invoke None [Close (Some 0%Z)] = Some (Tool.Success [])
  /\ summaryText number_plain depth_plain iszero_plain [] = []
  /\ no_entries <> []
  /\ summaryText number_plain depth_plain iszero_plain no_entries = [].
Proof. repeat split. discriminate. Qed.

(** C9: blanks for an argument; and an abort while output is coming in. *)
Lemma command_usage_and_cancel_witness :
  plain_handler (u "   ") true (u "/work") []
  = {| Command.notifications :=
         [(u "Usage: /analyze-image <path-to-image>", Command.error)];
       Command.displayed := []; Command.spawned := []; Command.killed := 0 |}
  /\ (In (u "Cancelled", Command.info)
         (Command.notifications
            (plain_handler (u "shot.png") true (u "/work")
               [StdoutData (u "{"); Abort; Close None]))
      /\ Command.displayed
           (plain_handler (u "shot.png") true (u "/work")
              [StdoutData (u "{"); Abort; Close None]) = []
      /\ Command.killed
           (plain_handler (u "shot.png") true (u "/work")
              [StdoutData (u "{"); Abort; Close None]) = 1%nat).
Proof.
  split.
  - exact (proj1 (command_usage_and_cancel resolve_plain number_plain depth_plain iszero_plain)
                 (u "   ") (u "/work") [] eq_refl).
  - refine (proj2 (command_usage_and_cancel resolve_plain number_plain depth_plain iszero_plain)
                  (u "shot.png") (u "/work") [StdoutData (u "{")] [Close None]
                  _ _ eq_refl).
    + discriminate.
    + now exists (u "image/png").
Defined.

(** C10: a text file. *)
Lemma command_rejects_non_image_witness :
  plain_handler (u " notes.txt ") true (u "/work") []
  = {| Command.notifications := [(u "Not a supported image file", Command.error)];
       Command.displayed := []; Command.spawned := []; Command.killed := 0 |}.
Proof.
  refine (command_rejects_non_image resolve_plain number_plain depth_plain iszero_plain
            (u " notes.txt ") (u "/work") [] _ eq_refl).
  discriminate.
Defined.

(** C10, as stated, fails without an interactive surface: the text file is
    answered by another error. *)
Lemma command_non_image_counterexample :
  classify (resolve_plain (u "/work") (trim (u "notes.txt"))) = NotImage
  /\ plain_handler (u "notes.txt") false (u "/work") []
     = {| Command.notifications :=
            [(u "analyze-image requires interactive mode", Command.error)];
          Command.displayed := []; Command.spawned := []; Command.killed := 0 |}
  /\ u "analyze-image requires interactive mode"
     <> u "Not a supported image file".
Proof. repeat split. discriminate. Qed.

(* ================================================================== *)
(** * Further properties of the source *)
(* ================================================================== *)

(** The command at a run that prints the example, and at the failing run. *)
Lemma command_success_displays_witness :
  Command.displayed (plain_handler (u "shot.png") true (u "/work") success_trace)
  = [(u "Image Analysis", u "A red circle.")].
Proof.
  refine (command_success_displays resolve_plain number_plain depth_plain iszero_plain
            (u "shot.png") (u "/work") [StdoutData red_circle; StdoutData [10]] []
            _ _ eq_refl).
  - discriminate.
  - now exists (u "image/png").
Defined.

Lemma command_failure_notifies_witness :
  Command.displayed (plain_handler (u "shot.png") true (u "/work") failing_trace)
  = []
  /\ exists more,
       Command.notifications
         (plain_handler (u "shot.png") true (u "/work") failing_trace)
       = [(u "Analysis failed: " ++ u "model unavailable", Command.error);
          (u "Cancelled", Command.info)] ++ more.
Proof.
  refine (command_failure_notifies resolve_plain number_plain depth_plain iszero_plain
            (u "shot.png") (u "/work") [StderrData (u "model unavailable")] []
            (Some 1%Z) _ _ eq_refl eq_refl).
  - discriminate.
  - now exists (u "image/png").
Defined.

Section Further.

Variable resolve : jsstring -> jsstring -> jsstring.
Variable localRead_execute :
  jsstring -> Tool.ReadParams -> option bool -> Tool.outcome.
Variable Number_toString : jsstring -> jsstring.
Variable join_depth : nat.
Variable Number_isZero : jsstring -> bool.

(** A delegation spawns [pi] once, with the path as an attachment, the
    provider zai, the model glm-4.6v, the fixed prompt, and JSON output. *)
Theorem spawn_arguments (toolCallId : jsstring) (params : Tool.ReadParams)
  (sig : option bool) (onUpdate : bool) (ctx : Tool.Context)
  (trace : list event) :
  Tool.trigger ctx ->
  (exists m, classify (resolve (Tool.cwd ctx) (Tool.path params)) = Image m) ->
  Tool.spawned (Tool.execute resolve localRead_execute Number_toString join_depth
                  Number_isZero toolCallId params sig onUpdate ctx trace)
  = [[u "@" ++ resolve (Tool.cwd ctx) (Tool.path params);
      u "--provider"; u "zai"; u "--model"; u "glm-4.6v";
      u "-p"; SUMMARY_PROMPT; u "--json"]].
Proof.
  intros Ht Hi. rewrite (execute_delegated _ _ _ _ _ _ _ _ _ _ _ Ht Hi). cbv zeta.
  now destruct (Tool.awaited _) as [[t|m]|].
Qed.

(** With [onUpdate] given, a successful delegation sends the progress note
    first and the result after it, and nothing else. *)
Theorem progress_precedes_result (toolCallId : jsstring)
  (params : Tool.ReadParams) (sig : option bool) (ctx : Tool.Context)
  (trace : list event) (raw : jsstring) :
  Tool.trigger ctx ->
  (exists m, classify (resolve (Tool.cwd ctx) (Tool.path params)) = Image m) ->
  Tool.invoke sig trace = Some (Tool.Success raw) ->
  Tool.updates (Tool.execute resolve localRead_execute Number_toString join_depth
                  Number_isZero toolCallId params sig true ctx trace)
  = [Tool.progress;
     Tool.readResult (summaryText Number_toString join_depth Number_isZero raw)].
Proof.
  intros Ht Hi Ho. rewrite (execute_delegated _ _ _ _ _ _ _ _ _ _ _ Ht Hi). cbv zeta.
  now rewrite (invoke_success _ _ _ Ho).
Qed.

(** A raw text that is no JSON, or that parses to a value without a
    messages sequence, is its own summary. *)
Theorem normalize_fallbacks (text : jsstring) :
  (JSON_parse text = None ->
   summaryText Number_toString join_depth Number_isZero text = text)
  /\ (forall j, JSON_parse text = Some j -> messages_of j = None ->
                summaryText Number_toString join_depth Number_isZero text = text).
Proof.
  rewrite summaryText_spec. unfold null_free, normalize_spec. split.
  - now intros ->.
  - intros j -> ->. reflexivity.
Qed.

End Further.

Lemma spawn_arguments_witness :
  Tool.spawned (plain_execute (u "call-1") png_params None false glm_ctx [])
  = [[u "@/work/shot.png"; u "--provider"; u "zai"; u "--model"; u "glm-4.6v";
      u "-p"; SUMMARY_PROMPT; u "--json"]].
Proof.
  refine (spawn_arguments resolve_plain read_plain number_plain depth_plain iszero_plain
            (u "call-1") png_params None false glm_ctx [] _ _).
  - left; reflexivity.
  - now exists (u "image/png").
Defined.

Lemma progress_precedes_result_witness :
  Tool.updates (plain_execute (u "call-1") png_params (Some false) true glm_ctx
                  success_trace)
  = [Tool.progress; Tool.readResult (u "A red circle.")].
Proof.
  refine (progress_precedes_result resolve_plain read_plain number_plain depth_plain
            iszero_plain (u "call-1") png_params (Some false) glm_ctx
            success_trace red_circle _ _ eq_refl).
  - left; reflexivity.
  - now exists (u "image/png").
Defined.

Lemma normalize_fallbacks_witness :
  summaryText number_plain depth_plain iszero_plain (u "plain string, not json")
  = u "plain string, not json"
  /\ summaryText number_plain depth_plain iszero_plain (dq "{'status':'ok'}")
     = dq "{'status':'ok'}".
Proof.
  split.
  - exact (proj1 (normalize_fallbacks number_plain depth_plain iszero_plain
                    (u "plain string, not json")) eq_refl).
  - exact (proj2 (normalize_fallbacks number_plain depth_plain iszero_plain
                    (dq "{'status':'ok'}"))
                 (JObj [(u "status", JStr (u "ok"))]) eq_refl eq_refl).
Defined.

(** Once the promise is settled no later event changes it: an invocation
    has one settlement. *)
Theorem first_settlement_stays (sig : option bool) (pre post : list event)
  (x : settlement) :
  Tool.promise (Tool.run (Tool.init sig) pre) = Some x ->
  Tool.promise (Tool.run (Tool.init sig) (pre ++ post)) = Some x.
Proof.
  intros H. rewrite ToolFacts.run_app. now apply ToolFacts.run_settled.
Qed.

Lemma first_settlement_stays_witness :
  Tool.promise (Tool.run (Tool.init (Some false))
                  ([ChildError (u "spawn pi ENOENT")]
                   ++ [Abort; Close (Some (-2)%Z)]))
  = Some (Rejected (u "spawn pi ENOENT")).
Proof.
  exact (first_settlement_stays (Some false) [ChildError (u "spawn pi ENOENT")]
           [Abort; Close (Some (-2)%Z)] (Rejected (u "spawn pi ENOENT")) eq_refl).
Defined.

(** With a signal that is already aborted when [execute] is called, the
    child is never killed, and the outcome is never a success. *)
Theorem aborted_signal_never_kills (trace : list event) :
  Tool.kills (Tool.run (Tool.init (Some true)) trace) = 0%nat
  /\ forall raw, Tool.invoke (Some true) trace <> Some (Tool.Success raw).
Proof.
  destruct (ToolFacts.run_aborted trace (Tool.init (Some true)) eq_refl)
    as [Hs Hk].
  split; [exact Hk|].
  intros raw Hi. apply invoke_success in Hi.
  unfold Tool.awaited, Tool.aborted in Hi. rewrite Hs in Hi.
  destruct (Tool.promise _) as [[t|m]|]; discriminate.
Qed.

(* ================================================================== *)
(** * More on the classifier *)
(* ================================================================== *)

(** The classifier answers [null] or one of four MIME types; jpg and jpeg
    share image/jpeg. *)
Theorem detect_mime_range (path mimeType : jsstring) :
  detectImageMimeType path = Some mimeType -> In mimeType image_types.
Proof.
  rewrite detect_by_ext. cbv zeta.
  set (ext := toLowerCase _).
  destruct (includes supported ext) eqn:E; [|discriminate].
  apply includes_In in E. intros [= <-].
  unfold supported in E. simpl in E.
  destruct E as [<-|[<-|[<-|[<-|[<-|[]]]]]]; cbv; tauto.
Qed.

Lemma detect_mime_range_witness :
  In (u "image/jpeg") image_types /\ In (u "image/webp") image_types.
Proof.
  split.
  - exact (detect_mime_range (u "/a/b.JPEG") (u "image/jpeg") eq_refl).
  - exact (detect_mime_range (u "/a/b.webp") (u "image/webp") eq_refl).
Defined.

Lemma lower_dot (c : N) : (lower c =? 46) = (c =? 46).
Proof.
  unfold lower.
  destruct (65 <=? c) eqn:E1; [|reflexivity].
  destruct (c <=? 90) eqn:E2; [|reflexivity].
  simpl. apply N.leb_le in E1.
  destruct (N.eqb_spec (c + 32) 46), (N.eqb_spec c 46); try reflexivity; lia.
Qed.

Lemma after_last_lower (path : jsstring) :
  after_last 46 (toLowerCase path) = option_map toLowerCase (after_last 46 path).
Proof.
  induction path as [|c r IH]; [reflexivity|].
  cbn [toLowerCase map after_last]. fold (toLowerCase r). rewrite IH.
  destruct (after_last 46 r); [reflexivity|].
  simpl. rewrite lower_dot. now destruct (c =? 46).
Qed.

(** What the classifier compares is fixed by the lower-cased path. *)
Lemma ext_of_lower (path : jsstring) :
  toLowerCase (match after_last 46 path with Some e => e | None => path end)
  = match after_last 46 (toLowerCase path) with
    | Some e => e
    | None => toLowerCase path
    end.
Proof. rewrite after_last_lower. now destruct (after_last 46 path). Qed.

(** Letter case never matters: two paths that differ in the case of their
    letters only classify alike, in every component and not in the extension
    alone. *)
Theorem detect_ignores_case (p q : jsstring) :
  toLowerCase p = toLowerCase q ->
  detectImageMimeType p = detectImageMimeType q.
Proof.
  intros H. rewrite !detect_by_ext. cbv zeta.
  now rewrite !ext_of_lower, H.
Qed.

Lemma detect_ignores_case_witness :
  detectImageMimeType (u "/Pictures/Shot.PnG")
  = detectImageMimeType (u "/pictures/shot.png").
Proof.
  exact (detect_ignores_case (u "/Pictures/Shot.PnG") (u "/pictures/shot.png")
           eq_refl).
Defined.

(* ================================================================== *)
(** * Trimming *)
(* ================================================================== *)

Lemma trimStart_clean (s : jsstring) : cleanStart (trimStart s).
Proof.
  induction s as [|c r IH]; simpl; [exact I|].
  destruct (isTrimSpace c) eqn:E; [exact IH|exact E].
Qed.

Lemma trimStart_fixed (s : jsstring) : cleanStart s -> trimStart s = s.
Proof. destruct s as [|c r]; simpl; [reflexivity|]. now intros ->. Qed.

(** Trimming the start leaves a suffix. *)
Lemma trimStart_suffix (s : jsstring) : exists sp, s = sp ++ trimStart s.
Proof.
  induction s as [|c r [sp IH]]; simpl; [now exists []|].
  destruct (isTrimSpace c).
  - exists (c :: sp). simpl. now f_equal.
  - now exists [].
Qed.

Lemma trimEnd_cleanStart (s : jsstring) : cleanStart s -> cleanStart (trimEnd s).
Proof.
  unfold trimEnd. intros H.
  destruct (trimStart_suffix (rev s)) as [sp E].
  apply (f_equal (@rev N)) in E. rewrite rev_involutive, rev_app_distr in E.
  destruct (rev (trimStart (rev s))) as [|c t]; [exact I|].
  rewrite E in H. exact H.
Qed.

(** Trimming twice is trimming once. *)
Lemma trim_idempotent (s : jsstring) : trim (trim s) = trim s.
Proof.
  unfold trim at 1.
  rewrite (trimStart_fixed (trim s)).
  - unfold trim, trimEnd. rewrite rev_involutive.
    rewrite (trimStart_fixed (trimStart (rev (trimStart s))));
      [reflexivity|apply trimStart_clean].
  - unfold trim. apply trimEnd_cleanStart, trimStart_clean.
Qed.

(* ================================================================== *)
(** * More on the listeners of [execute] *)
(* ================================================================== *)

(** The listeners kill the child at most once, and only when the signal
    is activated during the invocation. *)
Lemma kills_invariant (trace : list event) :
  forall st,
    (Tool.kills st = 0%nat \/ (Tool.kills st = 1%nat /\ Tool.signal st = Some true)) ->
    let st' := Tool.run st trace in
    Tool.kills st' = 0%nat \/ (Tool.kills st' = 1%nat /\ Tool.signal st' = Some true).
Proof.
  induction trace as [|e trace IH]; intros st H; [exact H|].
  cbv zeta. rewrite ToolFacts.run_cons. apply IH.
  destruct e as [d|d|m|code|]; simpl.
  - exact H.
  - exact H.
  - destruct (ToolFacts.signal_settle (Rejected m) st) as (-> & -> & _). exact H.
  - destruct (nonZero code);
      match goal with
      | |- context [Tool.settle ?s st] =>
          destruct (ToolFacts.signal_settle s st) as (-> & -> & _)
      end; exact H.
  - destruct (Tool.signal st) as [[|]|] eqn:Es; try (rewrite ?Es; exact H).
    destruct (Tool.onAbort st).
    + unfold Tool.settle. simpl.
      destruct (Tool.promise st); simpl; right; (split; [|reflexivity]);
        (destruct H as [->|[_ H]]; [reflexivity|discriminate]).
    + simpl. destruct H as [H|[_ H]]; [now left|discriminate].
Qed.

(** Whatever the signal and the events, [child.kill] is called at most
    once, and it is called only if the signal is aborted in the end. *)
Theorem kill_at_most_once (sig : option bool) (trace : list event) :
  (Tool.kills (Tool.run (Tool.init sig) trace) <= 1)%nat
  /\ (Tool.kills (Tool.run (Tool.init sig) trace) = 1%nat ->
      Tool.aborted (Tool.run (Tool.init sig) trace) = true).
Proof.
  pose proof (kills_invariant trace (Tool.init sig) (or_introl eq_refl)) as H.
  cbv zeta in H. unfold Tool.aborted.
  destruct H as [H|[H Hs]]; rewrite H.
  - split; [lia|discriminate].
  - split; [lia|]. now rewrite Hs.
Qed.

Lemma hasSignal_quiet (sig : option bool) (trace : list event) :
  existsb (settles sig) trace = false ->
  forall st,
    Tool.promise st = None -> Tool.signal st = sig ->
    Tool.promise (Tool.run st trace) = None.
Proof.
  induction trace as [|e trace IH]; intros H st Hp Hs; [exact Hp|].
  simpl in H. apply orb_false_iff in H as [He H].
  rewrite ToolFacts.run_cons.
  destruct e as [d|d|m|code|]; try discriminate; simpl.
  - now apply IH.
  - now apply IH.
  - rewrite Hs. simpl in He.
    destruct sig as [[|]|]; try discriminate; now apply IH.
Qed.

Lemma step_settles (sig : option bool) (st : Tool.state) (e : event) :
  settles sig e = true ->
  Tool.promise st = None -> Tool.signal st = sig ->
  (sig = Some false -> Tool.onAbort st = true) ->
  exists x, Tool.promise (Tool.step st e) = Some x.
Proof.
  intros He Hp Hs Ho.
  destruct e as [d|d|m|code|]; try discriminate; simpl.
  - unfold Tool.settle. rewrite Hp. now eexists.
  - destruct (nonZero code); unfold Tool.settle; rewrite Hp; now eexists.
  - simpl in He. destruct sig as [[|]|]; try discriminate.
    rewrite Hs, (Ho eq_refl). unfold Tool.settle. simpl. rewrite Hp. now eexists.
Qed.

Lemma settles_iff (sig : option bool) (trace : list event) :
  forall st,
    Tool.promise st = None -> Tool.signal st = sig ->
    (sig = Some false -> Tool.onAbort st = true) ->
    (Tool.promise (Tool.run st trace) = None
     <-> existsb (settles sig) trace = false).
Proof.
  induction trace as [|e trace IH]; intros st Hp Hs Ho.
  - simpl. now split.
  - rewrite ToolFacts.run_cons. cbn [existsb].
    destruct (settles sig e) eqn:He.
    + destruct (step_settles sig st e He Hp Hs Ho) as [x Hx].
      rewrite (ToolFacts.run_settled trace _ x Hx). simpl. split; discriminate.
    + simpl. apply IH.
      * apply (hasSignal_quiet sig [e]); [simpl; now rewrite He|assumption..].
      * rewrite <- Hs.
        destruct e as [d|d|m|code|]; try discriminate; try reflexivity.
        simpl. rewrite Hs. simpl in He.
        now destruct sig as [[|]|].
      * intros ->. destruct e as [d|d|m|code|]; try discriminate; simpl; auto.
Qed.

(** There is no timeout: the invocation stays pending exactly as long as
    no error event, no close event, and no abort of a signal that was not
    aborted at the call has come; output alone never ends it. *)
Theorem pending_until_settled (sig : option bool) (trace : list event) :
  Tool.invoke sig trace = None <-> existsb (settles sig) trace = false.
Proof.
  rewrite <- (settles_iff sig trace (Tool.init sig) eq_refl eq_refl).
  - unfold Tool.invoke, Tool.awaited.
    destruct (Tool.promise _) as [[t|m]|]; simpl; split;
      try discriminate; reflexivity.
  - now intros ->.
Qed.

Lemma promise_settle (s : settlement) (st : Tool.state) :
  Tool.promise (Tool.settle s st)
  = match Tool.promise st with Some x => Some x | None => Some s end.
Proof. unfold Tool.settle. now destruct (Tool.promise st) eqn:E. Qed.

(** A resolved promise holds a trimmed text. *)
Lemma resolved_trimmed (trace : list event) :
  forall st,
    (forall t, Tool.promise st = Some (Resolved t) -> trim t = t) ->
    forall t, Tool.promise (Tool.run st trace) = Some (Resolved t) -> trim t = t.
Proof.
  induction trace as [|e trace IH]; intros st H; [exact H|].
  rewrite ToolFacts.run_cons. apply IH. intros t Ht.
  destruct e as [d|d|m|code|]; simpl in Ht; try (now apply H).
  - rewrite promise_settle in Ht.
    destruct (Tool.promise st) as [x|] eqn:Ep; [now apply H|discriminate].
  - destruct (nonZero code); rewrite promise_settle in Ht;
      destruct (Tool.promise st) as [x|] eqn:Ep;
      try (now apply H); try discriminate.
    injection Ht as <-. apply trim_idempotent.
  - destruct (Tool.signal st) as [[|]|]; try (now apply H).
    destruct (Tool.onAbort st); [|now apply H].
    rewrite promise_settle in Ht. simpl in Ht.
    destruct (Tool.promise st) as [x|] eqn:Ep; [now apply H|discriminate].
Qed.

(** The raw text of a success is trimmed: it neither starts nor ends with
    white space, so trimming it again changes nothing. *)
Theorem success_text_trimmed (sig : option bool) (trace : list event)
  (raw : jsstring) :
  Tool.invoke sig trace = Some (Tool.Success raw) -> trim raw = raw.
Proof.
  intros H. apply invoke_success in H. unfold Tool.awaited in H.
  destruct (Tool.promise _) as [[t|m]|] eqn:Ep; try discriminate.
  destruct (Tool.aborted _); [discriminate|]. injection H as <-.
  apply (resolved_trimmed trace (Tool.init sig)); [discriminate|exact Ep].
Qed.

Lemma success_text_trimmed_witness : trim red_circle = red_circle.
Proof.
  exact (success_text_trimmed (Some false)
           [StdoutData [32; 10]; StdoutData red_circle; StdoutData [10]; Close (Some 0%Z)]
           red_circle eq_refl).
Defined.

(* ================================================================== *)
(** * More on the router, the normalizer and the command *)
(* ================================================================== *)

Section More.

Variable resolve : jsstring -> jsstring -> jsstring.
Variable localRead_execute :
  jsstring -> Tool.ReadParams -> option bool -> Tool.outcome.
Variable Number_toString : jsstring -> jsstring.
Variable join_depth : nat.
Variable Number_isZero : jsstring -> bool.

Local Abbreviation execute :=
  (Tool.execute resolve localRead_execute Number_toString join_depth Number_isZero).
Local Abbreviation handler :=
  (Command.handler resolve Number_toString join_depth Number_isZero).
Local Abbreviation assistant := (marked (u "role") (u "assistant")).
Local Abbreviation textual := (marked (u "type") (u "text")).

(** The listeners keep of the decoded chunks their concatenation only,
    one for each stream: two runs whose output events carry decoded chunks
    that concatenate to the same standard output and to the same standard
    error, before the same further events, give the same call of [execute]
    and the same call of the command; how the chunks of the two streams
    interleave does not matter.  (How the bytes of the process are cut into
    chunks is before the events: each chunk is decoded on its own.) *)
Theorem decoded_chunks_concatenate (pre pre' rest : list event) :
  forallb isData pre = true -> forallb isData pre' = true ->
  stdout_of pre = stdout_of pre' -> stderr_of pre = stderr_of pre' ->
  (forall toolCallId params sig onUpdate ctx,
      execute toolCallId params sig onUpdate ctx (pre ++ rest)
      = execute toolCallId params sig onUpdate ctx (pre' ++ rest))
  /\ (forall args hasUI cwd,
      handler args hasUI cwd (pre ++ rest) = handler args hasUI cwd (pre' ++ rest)).
Proof.
  intros Hd Hd' Ho He. split.
  - intros toolCallId params sig onUpdate ctx. unfold Tool.execute.
    now rewrite !ToolFacts.run_app, (run_after_data sig pre Hd),
      (run_after_data sig pre' Hd'), Ho, He.
  - intros args hasUI cwd. unfold Command.handler.
    now rewrite !crun_app, (crun_data Number_toString join_depth Number_isZero pre Hd),
      (crun_data Number_toString join_depth Number_isZero pre' Hd'), Ho, He.
Qed.

(** An error event of the child (the program is missing, say) that comes
    while the invocation is pending ends it: [execute] throws a tool error
    whose message carries the message of the event, whatever follows, a close
    with code zero included. *)
Theorem spawn_error_surfaces (toolCallId : jsstring) (params : Tool.ReadParams)
  (sig : option bool) (onUpdate : bool) (ctx : Tool.Context)
  (pre rest : list event) (m : jsstring) :
  Tool.trigger ctx ->
  (exists mt, classify (resolve (Tool.cwd ctx) (Tool.path params)) = Image mt) ->
  forallb isData pre = true ->
  let r := execute toolCallId params sig onUpdate ctx (pre ++ ChildError m :: rest) in
  Tool.result r
  = Tool.Threw {| Tool.message := Tool.errorMsg m; Tool.isToolError := true |}
  /\ occursIn m (Tool.errorMsg m).
Proof.
  intros Ht Hi Hd r. subst r.
  rewrite (execute_delegated _ _ _ _ _ _ _ _ _ _ _ Ht Hi). cbv zeta.
  rewrite ToolFacts.run_app, (run_after_data sig pre Hd), ToolFacts.run_cons.
  cbn [Tool.step Tool.settle Tool.promise Tool.stdout Tool.stderr Tool.signal
         Tool.kills Tool.onAbort].
  unfold Tool.awaited.
  rewrite (ToolFacts.run_settled rest _ (Rejected m)) by reflexivity.
  split; [reflexivity|]. unfold Tool.errorMsg. apply occursIn_middle.
Qed.

(** A record whose last assistant message is missing, or has a content
    that is no sequence (a string, say), is summarized by the raw text, with
    or without [null] entries among its messages. *)
Theorem raw_without_content_sequence (text : jsstring) (j : json)
  (msgs : list json) :
  JSON_parse text = Some j ->
  messages_of j = Some msgs ->
  (last_such assistant msgs = None
   \/ exists a, last_such assistant msgs = Some a /\ content_of a = None) ->
  summaryText Number_toString join_depth Number_isZero text = text.
Proof.
  intros Hj Hm H. rewrite summaryText_spec.
  destruct (null_free text); [|reflexivity].
  unfold normalize_spec. rewrite Hj, Hm.
  destruct H as [->|(a & -> & ->)]; reflexivity.
Qed.

Lemma string_parts_notNull (cs : list json) :
  string_parts cs = true -> forallb notNull cs = true.
Proof.
  unfold string_parts. induction cs as [|c cs IH]; [reflexivity|].
  cbn [forallb]. intros H. apply andb_true_iff in H as [Hc H].
  apply andb_true_iff in Hc as [Hn _]. now rewrite Hn, IH.
Qed.

Lemma join_plain_texts (cs : list json) :
  string_parts cs = true ->
  map_c (elementString Number_toString join_depth) (map text_of (filter textual cs))
  = Normal (plain_texts cs).
Proof.
  unfold string_parts, plain_texts. induction cs as [|c cs IH]; [reflexivity|].
  cbn [forallb filter flat_map]. intros H. apply andb_true_iff in H as [Hc H].
  apply andb_true_iff in Hc as [_ Hc]. specialize (IH H).
  destruct (textual c) eqn:Et.
  - simpl in Hc. destruct (text_of c) as [[| | |t| |]|] eqn:Ex; try discriminate.
    cbn [map map_c]. rewrite Ex, IH. reflexivity.
  - exact IH.
Qed.

(** When the entries of the chosen content sequence are not [null] and the
    texts of its entries of kind [text] are strings, the summary is these
    strings joined by line feeds; entries of another kind are skipped. *)
Theorem summary_of_text_parts (text : jsstring) (j : json)
  (msgs cs : list json) (a : json) :
  JSON_parse text = Some j ->
  messages_of j = Some msgs ->
  forallb notNull (after_last_such assistant msgs) = true ->
  last_such assistant msgs = Some a ->
  content_of a = Some cs ->
  string_parts cs = true ->
  summaryText Number_toString join_depth Number_isZero text = join [10] (plain_texts cs).
Proof.
  intros Hj Hm Hn Ha Hc Hs. rewrite summaryText_spec.
  unfold null_free, normalize_spec. rewrite Hj, Hm, Hn, Ha, Hc.
  rewrite (string_parts_notNull cs Hs). cbn [andb].
  unfold joined_texts, Array_join. now rewrite (join_plain_texts cs Hs).
Qed.

(** The command spawns the analysis exactly when there is an interactive
    surface, the trimmed argument is not empty, and its resolved path
    classifies as an image; in every other case it gives one error
    notification, spawns nothing, kills nothing and shows nothing. *)
Theorem command_spawns_iff (args : jsstring) (hasUI : bool) (cwd : jsstring)
  (trace : list event) :
  let r := handler args hasUI cwd trace in
  let absolutePath := resolve cwd (trim args) in
  (Command.spawned r = [spawn_args absolutePath]
   <-> hasUI = true /\ trim args <> []
       /\ exists m, classify absolutePath = Image m)
  /\ (Command.spawned r <> [spawn_args absolutePath] ->
      Command.spawned r = [] /\ Command.displayed r = []
      /\ Command.killed r = 0%nat
      /\ exists msg, Command.notifications r = [(msg, Command.error)]).
Proof.
  cbv zeta. unfold Command.handler.
  destruct hasUI; cbn [negb].
  2:{ split.
      - split; [discriminate|]. intros [H _]. discriminate.
      - intros _. simpl. repeat split. now eexists. }
  cbv zeta. destruct (eqb (trim args) []) eqn:Ee.
  { apply eqb_eq in Ee. split.
    - split; [discriminate|]. intros (_ & H & _). contradiction.
    - intros _. simpl. repeat split. now eexists. }
  apply eqb_neq in Ee.
  destruct (falsy (detectImageMimeType (resolve cwd (trim args)))) eqn:Ei.
  { split.
    - split; [discriminate|]. intros (_ & _ & H).
      apply ToolFacts.image_spec in H. congruence.
    - intros _. simpl. repeat split. now eexists. }
  apply ToolFacts.image_spec in Ei. split.
  - split; [now intros _|reflexivity].
  - intros H. now destruct H.
Qed.

Lemma call_done_outcome (result : option jsstring) (st : Command.state) :
  one_outcome st -> one_outcome (Command.call_done result st).
Proof.
  unfold one_outcome, Command.call_done.
  destruct (Command.done st) as [x|] eqn:Ed.
  - rewrite Ed. now intros H.
  - intros [Hs Hn]. destruct result as [text|]; simpl.
    + rewrite Hs. now split.
    + exact Hs.
Qed.

Lemma notify_error_outcome (m : jsstring) (st : Command.state) :
  one_outcome st -> one_outcome (Command.notify m Command.error st).
Proof.
  unfold one_outcome. simpl.
  destruct (Command.done st) as [[text|]|]; try (now intros H);
    intros [Hs Hn]; (split; [exact Hs|]); intros [H|H];
    try discriminate; contradiction.
Qed.

Lemma crun_outcome (trace : list event) :
  forall st, one_outcome st ->
             one_outcome (Command.run Number_toString join_depth Number_isZero st trace).
Proof.
  induction trace as [|e trace IH]; intros st H; [exact H|].
  rewrite crun_cons. apply IH.
  destruct e as [d|d|m|code|]; cbn [Command.step].
  - exact H.
  - exact H.
  - now apply call_done_outcome, notify_error_outcome.
  - destruct (nonZero code).
    + now apply call_done_outcome, notify_error_outcome.
    + now apply call_done_outcome.
  - apply call_done_outcome. now destruct (Command.aborted st).
Qed.

(** Whatever the events, the command opens at most one editor view, always
    titled [Image Analysis], and never both opens a view and notifies
    [Cancelled]. *)
Theorem command_single_outcome (args : jsstring) (hasUI : bool)
  (cwd : jsstring) (trace : list event) :
  let r := handler args hasUI cwd trace in
  (List.length (Command.displayed r) <= 1)%nat
  /\ forall title text,
       In (title, text) (Command.displayed r) ->
       title = u "Image Analysis"
       /\ ~ In (u "Cancelled", Command.info) (Command.notifications r).
Proof.
  cbv zeta. unfold Command.handler.
  destruct (negb hasUI); [simpl; split; [lia|intros ? ? []]|].
  cbv zeta. destruct (eqb (trim args) []); [simpl; split; [lia|intros ? ? []]|].
  destruct (falsy _); [simpl; split; [lia|intros ? ? []]|].
  cbn [Command.displayed Command.notifications].
  pose proof (crun_outcome trace Command.init (conj eq_refl (fun H => H))) as H.
  unfold one_outcome in H.
  destruct (Command.done _) as [[t|]|].
  - destruct H as [-> Hn]. split; [simpl; lia|].
    intros title text [[= <- <-]|[]]. split; [reflexivity|].
    intros Hc. apply Hn. now apply in_rev.
  - rewrite H. split; [simpl; lia|intros ? ? []].
  - destruct H as [-> _]. split; [simpl; lia|intros ? ? []].
Qed.

Lemma call_done_kills (result : option jsstring) (st : Command.state) :
  Command.aborted (Command.call_done result st) = Command.aborted st
  /\ Command.kills (Command.call_done result st) = Command.kills st.
Proof.
  unfold Command.call_done. destruct (Command.done st); [now split|].
  now destruct result.
Qed.

Lemma crun_kills (trace : list event) :
  forall st,
    Command.kills st = (if Command.aborted st then 1 else 0)%nat ->
    Command.kills (Command.run Number_toString join_depth Number_isZero st trace)
    = (if Command.aborted st || existsb isAbort trace then 1 else 0)%nat.
Proof.
  induction trace as [|e trace IH]; intros st H.
  - simpl. now rewrite orb_false_r.
  - rewrite crun_cons.
    destruct e as [d|d|m|code|]; cbn [Command.step existsb isAbort].
    + rewrite IH; simpl; [reflexivity|exact H].
    + rewrite IH; simpl; [reflexivity|exact H].
    + rewrite IH.
      * now destruct (call_done_kills None (Command.notify (u "Analysis failed: " ++ m)
                                               Command.error st)) as [-> _].
      * destruct (call_done_kills None (Command.notify (u "Analysis failed: " ++ m)
                                          Command.error st)) as [-> ->].
        exact H.
    + destruct (nonZero code).
      * rewrite IH.
        -- now destruct (call_done_kills None
                           (Command.notify (u "Analysis failed: " ++ Command.stderr st)
                              Command.error st)) as [-> _].
        -- destruct (call_done_kills None
                       (Command.notify (u "Analysis failed: " ++ Command.stderr st)
                          Command.error st)) as [-> ->].
           exact H.
      * rewrite IH.
        -- now destruct (call_done_kills
                           (Some (summaryText Number_toString join_depth Number_isZero
                                    (Command.stdout st))) st) as [-> _].
        -- destruct (call_done_kills
                       (Some (summaryText Number_toString join_depth Number_isZero
                                (Command.stdout st))) st) as [-> ->].
           exact H.
    + rewrite orb_true_r. rewrite IH.
      * match goal with
        | |- context [Command.call_done None ?x] =>
            destruct (call_done_kills None x) as [-> _]
        end.
        destruct (Command.aborted st) eqn:Ea; [rewrite Ea|]; reflexivity.
      * match goal with
        | |- context [Command.call_done None ?x] =>
            destruct (call_done_kills None x) as [-> ->]
        end.
        destruct (Command.aborted st) eqn:Ea; [now rewrite Ea|simpl; now rewrite H].
Qed.

(** The command kills its child once if the loader is aborted at any
    time, a time after the process has closed included, and never
    otherwise. *)
Theorem command_kills_iff_aborted (args cwd : jsstring) (trace : list event) :
  trim args <> [] ->
  (exists m, classify (resolve cwd (trim args)) = Image m) ->
  Command.killed (handler args true cwd trace)
  = (if existsb isAbort trace then 1 else 0)%nat.
Proof.
  intros Hne Hi. rewrite (handler_spawns _ _ _ _ _ _ _ Hne Hi). cbv zeta.
  cbn [Command.killed]. now rewrite (crun_kills trace Command.init eq_refl).
Qed.

(** An error event of the child that comes while the analysis is in
    progress is notified with its message, then [Cancelled] is notified, and
    no editor opens. *)
Theorem command_spawn_error_notifies (args cwd : jsstring)
  (pre rest : list event) (m : jsstring) :
  trim args <> [] ->
  (exists mt, classify (resolve cwd (trim args)) = Image mt) ->
  forallb isData pre = true ->
  let r := handler args true cwd (pre ++ ChildError m :: rest) in
  Command.displayed r = []
  /\ exists more,
       Command.notifications r
       = [(u "Analysis failed: " ++ m, Command.error);
          (u "Cancelled", Command.info)] ++ more.
Proof.
  intros Hne Hi Hd r. subst r. rewrite (handler_spawns _ _ _ _ _ _ _ Hne Hi).
  cbv zeta.
  rewrite crun_app, (crun_data Number_toString join_depth Number_isZero pre Hd), crun_cons.
  cbn [Command.step Command.init Command.call_done Command.notify Command.done
         Command.resume Command.stdout Command.stderr Command.kills
         Command.notified Command.shown Command.aborted app].
  match goal with
  | |- context [Command.run _ _ _ ?st rest] =>
      destruct (crun_done Number_toString join_depth Number_isZero None rest st eq_refl)
        as (_ & Hs & (more & Hn) & _)
  end.
  cbn [Command.displayed Command.notifications]. split.
  - now rewrite Hs.
  - exists (rev more). rewrite Hn, rev_app_distr. reflexivity.
Qed.

(** White space around the argument is ignored. *)
Theorem command_ignores_surrounding_space (args : jsstring) (hasUI : bool)
  (cwd : jsstring) (trace : list event) :
  handler args hasUI cwd trace = handler (trim args) hasUI cwd trace.
Proof. unfold Command.handler. now rewrite trim_idempotent. Qed.

End More.

Lemma decoded_chunks_concatenate_witness :
  plain_execute (u "call-1") png_params (Some false) true glm_ctx
    ([StdoutData (u "ab"); StderrData (u "x"); StdoutData (u "c")] ++ [Close (Some 0%Z)])
  = plain_execute (u "call-1") png_params (Some false) true glm_ctx
      ([StderrData (u "x"); StdoutData (u "abc")] ++ [Close (Some 0%Z)]).
Proof.
  exact (proj1 (decoded_chunks_concatenate resolve_plain read_plain number_plain depth_plain iszero_plain
                  [StdoutData (u "ab"); StderrData (u "x"); StdoutData (u "c")]
                  [StderrData (u "x"); StdoutData (u "abc")]
                  [Close (Some 0%Z)] eq_refl eq_refl eq_refl eq_refl)
               (u "call-1") png_params (Some false) true glm_ctx).
Defined.

Lemma spawn_error_surfaces_witness :
  Tool.result (plain_execute (u "call-1") png_params None false glm_ctx
                 [ChildError (u "spawn pi ENOENT"); Close (Some 0%Z)])
  = Tool.Threw {| Tool.message := Tool.errorMsg (u "spawn pi ENOENT");
                  Tool.isToolError := true |}
  /\ occursIn (u "spawn pi ENOENT") (Tool.errorMsg (u "spawn pi ENOENT")).
Proof.
  refine (spawn_error_surfaces resolve_plain read_plain number_plain depth_plain iszero_plain
            (u "call-1") png_params None false glm_ctx [] [Close (Some 0%Z)]
            (u "spawn pi ENOENT") _ _ eq_refl).
  - left; reflexivity.
  - now exists (u "image/png").
Defined.

Lemma raw_without_content_sequence_witness :
  summaryText number_plain depth_plain iszero_plain string_content = string_content.
Proof.
  refine (raw_without_content_sequence number_plain depth_plain iszero_plain string_content
            (JObj [(u "messages",
                    JArr [JObj [(u "role", JStr (u "assistant"));
                                (u "content", JStr (u "hello"))]])])
            [JObj [(u "role", JStr (u "assistant")); (u "content", JStr (u "hello"))]]
            eq_refl eq_refl _).
  right. eexists. split; reflexivity.
Defined.

Lemma summary_of_text_parts_witness :
  summaryText number_plain depth_plain iszero_plain mixed_parts = u "A" ++ [10] ++ u "B".
Proof.
  exact (summary_of_text_parts number_plain depth_plain iszero_plain mixed_parts
           (JObj [(u "messages",
                   JArr [JObj [(u "role", JStr (u "assistant"));
                               (u "content",
                                JArr [JObj [(u "type", JStr (u "text"));
                                            (u "text", JStr (u "A"))];
                                      JObj [(u "type", JStr (u "image"))];
                                      JObj [(u "type", JStr (u "text"));
                                            (u "text", JStr (u "B"))]])]])])
           [JObj [(u "role", JStr (u "assistant"));
                  (u "content",
                   JArr [JObj [(u "type", JStr (u "text")); (u "text", JStr (u "A"))];
                         JObj [(u "type", JStr (u "image"))];
                         JObj [(u "type", JStr (u "text")); (u "text", JStr (u "B"))]])]]
           [JObj [(u "type", JStr (u "text")); (u "text", JStr (u "A"))];
            JObj [(u "type", JStr (u "image"))];
            JObj [(u "type", JStr (u "text")); (u "text", JStr (u "B"))]]
           (JObj [(u "role", JStr (u "assistant"));
                  (u "content",
                   JArr [JObj [(u "type", JStr (u "text")); (u "text", JStr (u "A"))];
                         JObj [(u "type", JStr (u "image"))];
                         JObj [(u "type", JStr (u "text")); (u "text", JStr (u "B"))]])])
           eq_refl eq_refl eq_refl eq_refl eq_refl eq_refl).
Defined.

Lemma command_kills_iff_aborted_witness :
  Command.killed (plain_handler (u "shot.png") true (u "/work")
                    [StdoutData red_circle; Close (Some 0%Z); Abort; Abort])
  = 1%nat
  /\ Command.killed (plain_handler (u "shot.png") true (u "/work") success_trace)
     = 0%nat.
Proof.
  split.
  - refine (command_kills_iff_aborted resolve_plain number_plain depth_plain iszero_plain
              (u "shot.png") (u "/work")
              [StdoutData red_circle; Close (Some 0%Z); Abort; Abort] _ _).
    + discriminate.
    + now exists (u "image/png").
  - refine (command_kills_iff_aborted resolve_plain number_plain depth_plain iszero_plain
              (u "shot.png") (u "/work") success_trace _ _).
    + discriminate.
    + now exists (u "image/png").
Defined.

Lemma command_spawn_error_notifies_witness :
  Command.displayed
    (plain_handler (u "shot.png") true (u "/work")
       [ChildError (u "spawn pi ENOENT"); Close (Some (-2)%Z)])
  = []
  /\ exists more,
       Command.notifications
         (plain_handler (u "shot.png") true (u "/work")
            [ChildError (u "spawn pi ENOENT"); Close (Some (-2)%Z)])
       = [(u "Analysis failed: " ++ u "spawn pi ENOENT", Command.error);
          (u "Cancelled", Command.info)] ++ more.
Proof.
  refine (command_spawn_error_notifies resolve_plain number_plain depth_plain iszero_plain
            (u "shot.png") (u "/work") [] [Close (Some (-2)%Z)]
            (u "spawn pi ENOENT") _ _ eq_refl).
  - discriminate.
  - now exists (u "image/png").
Defined.

(** The tool and the command normalize alike: on output without white
    space around it, followed by a close with code zero, the command shows the
    very summary the tool returns under its heading. *)
Theorem tool_and_command_agree
  (resolve : jsstring -> jsstring -> jsstring)
  (localRead_execute : jsstring -> Tool.ReadParams -> option bool -> Tool.outcome)
  (Number_toString : jsstring -> jsstring) (join_depth : nat) (Number_isZero : jsstring -> bool)
  (toolCallId : jsstring) (params : Tool.ReadParams) (onUpdate : bool)
  (ctx : Tool.Context) (args cwd : jsstring) (pre : list event) :
  Tool.trigger ctx ->
  (exists m, classify (resolve (Tool.cwd ctx) (Tool.path params)) = Image m) ->
  trim args <> [] ->
  (exists m, classify (resolve cwd (trim args)) = Image m) ->
  forallb isData pre = true ->
  trim (stdout_of pre) = stdout_of pre ->
  exists summary,
    Tool.result (Tool.execute resolve localRead_execute Number_toString join_depth
                   Number_isZero toolCallId params None onUpdate ctx
                   (pre ++ [Close (Some 0%Z)]))
    = Tool.Returned (Tool.readResult summary)
    /\ Command.displayed (Command.handler resolve Number_toString join_depth Number_isZero
                            args true cwd (pre ++ [Close (Some 0%Z)]))
       = [(u "Image Analysis", summary)].
Proof.
  intros Ht Hi Hne Hc Hd Htrim.
  exists (summaryText Number_toString join_depth Number_isZero (stdout_of pre)). split.
  - rewrite (execute_delegated _ _ _ _ _ _ _ _ _ _ _ Ht Hi). cbv zeta.
    rewrite ToolFacts.run_app, (run_after_data None pre Hd). simpl.
    now rewrite Htrim.
  - rewrite (handler_spawns _ _ _ _ _ _ _ Hne Hc). cbv zeta.
    now rewrite crun_app, (crun_data Number_toString join_depth Number_isZero pre Hd).
Qed.

Lemma tool_and_command_agree_witness :
  exists summary,
    Tool.result (plain_execute (u "call-1") png_params None true glm_ctx
                   ([StdoutData red_circle] ++ [Close (Some 0%Z)]))
    = Tool.Returned (Tool.readResult summary)
    /\ Command.displayed (plain_handler (u "shot.png") true (u "/work")
                            ([StdoutData red_circle] ++ [Close (Some 0%Z)]))
       = [(u "Image Analysis", summary)].
Proof.
  refine (tool_and_command_agree resolve_plain read_plain number_plain depth_plain iszero_plain
            (u "call-1") png_params true glm_ctx (u "shot.png") (u "/work")
            [StdoutData red_circle] _ _ _ _ eq_refl eq_refl).
  - left; reflexivity.
  - now exists (u "image/png").
  - discriminate.
  - now exists (u "image/png").
Defined.
